(** * typeorm-query-utils: condition compiler, boolean composer, sort order

    A shallow embedding of [src/parse-condition.ts] ([parseCondition]),
    [applyWhereConditionsQB] and [src/qb-apply-sort-order.ts]
    ([applySortOrderQB]), and the properties of the specification that
    are about them. *)

From Stdlib Require Import ZArith List Bool Ascii String Lia.
From Stdlib Require Import DecimalString.
Import ListNotations.
Local Open Scope string_scope.

Set Implicit Arguments.

(** ** JavaScript values *)

(** A JS number.  The code never computes with numbers: it asks for
    [typeof] and compares with the literal [1].  A double that is an
    integer is kept as that integer (both zeros as [0]); [NFraction w f] is
    the double [w + 0.f], [f] read as binary digits after the point, which
    is never an integer. *)
Inductive JsNumber : Type :=
| NInt (z : Z)
| NFraction (whole : Z) (fraction : positive)
| NNaN
| NInfinity (negative : bool).

(** The values a caller can hand over: the JSON-like values, [undefined]
    and [Date], and the bigints, symbols and functions, of which the code
    sees no more than their [typeof].  An object is the list of its own
    enumerable string-keyed properties in the engine's enumeration order;
    strings are sequences of Latin-1 code units. *)
#[warnings="-register-all"]
Inductive JsValue : Type :=
| JUndefined
| JNull
| JBool (b : bool)
| JNum (n : JsNumber)
| JStr (s : string)
| JDate (time : Z)
| JArr (items : list JsValue)
| JObj (props : list (string * JsValue))
| JBigInt (z : Z)
| JSymbol (description : string)
| JFunction (code : string).

Inductive JsType : Type :=
| TUndefined | TObject | TBoolean | TNumber | TString
| TBigInt | TSymbol | TFunction.

Definition typeof (v : JsValue) : JsType :=
  match v with
  | JUndefined => TUndefined
  | JNull => TObject
  | JBool _ => TBoolean
  | JNum _ => TNumber
  | JStr _ => TString
  | JDate _ => TObject
  | JArr _ => TObject
  | JObj _ => TObject
  | JBigInt _ => TBigInt
  | JSymbol _ => TSymbol
  | JFunction _ => TFunction
  end.

Definition JsType_eqb (s t : JsType) : bool :=
  match s, t with
  | TUndefined, TUndefined | TObject, TObject | TBoolean, TBoolean
  | TNumber, TNumber | TString, TString
  | TBigInt, TBigInt | TSymbol, TSymbol | TFunction, TFunction => true
  | _, _ => false
  end.

Definition Array_isArray (v : JsValue) : bool :=
  match v with JArr _ => true | _ => false end.

Definition instanceof_Date (v : JsValue) : bool :=
  match v with JDate _ => true | _ => false end.

(** [v === s] for a string literal [s] *)
Definition is_the_string (v : JsValue) (s : string) : bool :=
  match v with JStr x => String.eqb x s | _ => false end.

(** [v === undefined || v === null] *)
Definition is_nullish (v : JsValue) : bool :=
  match v with JUndefined | JNull => true | _ => false end.

(** [Object.keys] and [Object.entries] of a non-null value of type object
    that is not an array: keys come back as strings, a [Date] has no own
    enumerable property. *)
Definition Object_entries (v : JsValue) : list (JsValue * JsValue) :=
  match v with
  | JObj props => map (fun kv => (JStr (fst kv), snd kv)) props
  | _ => []
  end.

Definition Object_keys (v : JsValue) : list JsValue :=
  map fst (Object_entries v).

(** ** Strings *)

(** White space removed by [String.prototype.trim], within Latin-1. *)
Definition is_white_space (c : ascii) : bool :=
  let n := nat_of_ascii c in
  ((9 <=? n) && (n <=? 13) || (n =? 32) || (n =? 160))%nat.

Fixpoint trimStart (s : string) : string :=
  match s with
  | EmptyString => EmptyString
  | String c r => if is_white_space c then trimStart r else s
  end.

Fixpoint trimEnd (s : string) : string :=
  match s with
  | EmptyString => EmptyString
  | String c r =>
      match trimEnd r with
      | EmptyString => if is_white_space c then EmptyString else String c EmptyString
      | r' => String c r'
      end
  end.

Definition trim (s : string) : string := trimEnd (trimStart s).

(** [s.replace(/-/g, '_')] *)
Fixpoint replace_dashes (s : string) : string :=
  match s with
  | EmptyString => EmptyString
  | String c r => String (if Ascii.eqb c "-" then "_"%char else c) (replace_dashes r)
  end.

(** [s.replace(/\$/, "")]: the first dollar sign is dropped. *)
Fixpoint remove_first_dollar (s : string) : string :=
  match s with
  | EmptyString => EmptyString
  | String c r => if Ascii.eqb c "$" then r else String c (remove_first_dollar r)
  end.

(** [s.includes(c)] for a one-character needle. *)
Fixpoint includes (c : ascii) (s : string) : bool :=
  match s with
  | EmptyString => false
  | String d r => Ascii.eqb d c || includes c r
  end.

(** [s.split(c)] for a one-character separator. *)
Fixpoint split (c : ascii) (s : string) : list string :=
  match s with
  | EmptyString => [EmptyString]
  | String d r =>
      if Ascii.eqb d c then EmptyString :: split c r
      else match split c r with
           | [] => [String d EmptyString]
           | w :: ws => String d w :: ws
           end
  end.

(** ** Errors and results *)

Record JsError : Type := { name : string; message : string }.

(** [new Error(msg)] *)
Definition Error (msg : string) : JsError :=
  {| name := "Error"; message := msg |}.

(** How a call ends: it returns a value or throws. *)
Inductive Completion (A : Type) : Type :=
| Return (a : A)
| Throw (e : JsError).
Arguments Return {A} a.
Arguments Throw {A} e.

Definition Parameters : Type := list (string * JsValue).

(** [interface FindOperatorQB { query: string; parameters?: any }] *)
Record FindOperatorQB : Type :=
  { query : string; parameters : option Parameters }.

(** The values built by TypeORM's find-operator constructors.  [Raw]
    carries a function [alias => `${alias}` ++ tail], kept as its tail, and
    its own parameters. *)
Inductive FindOperator : Type :=
| In (v : JsValue)
| Not (o : FindOperator)
| MoreThanOrEqual (v : JsValue)
| LessThanOrEqual (v : JsValue)
| MoreThan (v : JsValue)
| LessThan (v : JsValue)
| Between (lo hi : JsValue)
| Like (pattern : string)
| ILike (pattern : string)
| Equal (v : JsValue)
| IsNull
| Raw (tail : string) (params : Parameters).

Inductive Parsed : Type :=
| QB (r : FindOperatorQB)
| Find (o : FindOperator).

(** ** The operator tokens of the [switch] *)

Inductive Operator : Type :=
| op_in | op_notIn | op_gte | op_lte | op_gt | op_lt
| op_between | op_notBetween
| op_contains | op_notContains | op_iContains | op_notIContains
| op_startsWith | op_notStartsWith | op_endsWith | op_notEndsWith
| op_equalTo | op_notEqualTo
| op_regex | op_notRegex | op_regexi | op_notRegexi
| op_jsonContains | op_jsonContained | op_jsonEquals | op_jsonHasKey.

Definition tokens : list (string * Operator) :=
  [ ("$in", op_in); ("$notIn", op_notIn); ("$gte", op_gte); ("$lte", op_lte);
    ("$gt", op_gt); ("$lt", op_lt); ("$between", op_between);
    ("$notBetween", op_notBetween); ("$contains", op_contains);
    ("$notContains", op_notContains); ("$iContains", op_iContains);
    ("$notIContains", op_notIContains); ("$startsWith", op_startsWith);
    ("$notStartsWith", op_notStartsWith); ("$endsWith", op_endsWith);
    ("$notEndsWith", op_notEndsWith); ("$equalTo", op_equalTo);
    ("$notEqualTo", op_notEqualTo); ("$regex", op_regex);
    ("$notRegex", op_notRegex); ("$regexi", op_regexi);
    ("$notRegexi", op_notRegexi); ("$jsonContains", op_jsonContains);
    ("$jsonContained", op_jsonContained); ("$jsonEquals", op_jsonEquals);
    ("$jsonHasKey", op_jsonHasKey) ].

(** The [case] label that a token selects, [None] for [default]. *)
Fixpoint lookup_token (l : list (string * Operator)) (tok : string) : option Operator :=
  match l with
  | [] => None
  | (t, o) :: rest => if String.eqb tok t then Some o else lookup_token rest tok
  end.

Definition case_of (tok : string) : option Operator := lookup_token tokens tok.

(** [const operatorMap: Record<string, string>], the table at the head of
    the file. *)
Definition operatorMap : list (string * string) :=
  [ ("$in", "IN"); ("$notIn", "NOT IN"); ("$gte", ">="); ("$lte", "<=");
    ("$gt", ">"); ("$lt", "<"); ("$between", "BETWEEN");
    ("$notBetween", "NOT BETWEEN"); ("$contains", "LIKE");
    ("$notContains", "NOT LIKE"); ("$iContains", "ILIKE");
    ("$notIContains", "NOT ILIKE"); ("$startsWith", "LIKE");
    ("$notStartsWith", "NOT LIKE"); ("$endsWith", "LIKE");
    ("$notEndsWith", "NOT LIKE"); ("$regex", "~"); ("$notRegex", "!~");
    ("$regexi", "~*"); ("$notRegexi", "!~*"); ("$equalTo", "=");
    ("$notEqualTo", "<>"); ("$jsonContains", "@>"); ("$jsonContained", "<@");
    ("$jsonEquals", "="); ("$jsonHasKey", "?") ].

Fixpoint operatorMap_get (m : list (string * string)) (tok : string) : option string :=
  match m with
  | [] => None
  | (t, sql) :: rest => if String.eqb tok t then Some sql else operatorMap_get rest tok
  end.

(** ** Operand shapes *)

(** [typeof item === 'string' || typeof item === 'number' || item instanceof Date] *)
Definition is_string_number_or_date (v : JsValue) : bool :=
  JsType_eqb (typeof v) TString || JsType_eqb (typeof v) TNumber || instanceof_Date v.

(** [['number', 'string'].includes(typeof v) || v instanceof Date] *)
Definition is_number_string_or_date (v : JsValue) : bool :=
  (JsType_eqb (typeof v) TNumber || JsType_eqb (typeof v) TString) || instanceof_Date v.

(** [typeof v === 'string' || typeof v === 'number' || typeof v === 'boolean' || v instanceof Date] *)
Definition is_string_number_boolean_or_date (v : JsValue) : bool :=
  JsType_eqb (typeof v) TString || JsType_eqb (typeof v) TNumber
  || JsType_eqb (typeof v) TBoolean || instanceof_Date v.

(** [Array.isArray(v) && v.every(item => ...)] *)
Definition is_array_of_scalars (v : JsValue) : bool :=
  match v with
  | JArr items => forallb is_string_number_or_date items
  | _ => false
  end.

(** [Array.isArray(v) && v.length === 2 && v.every(item => ...)] *)
Definition is_pair_of_scalars (v : JsValue) : bool :=
  match v with
  | JArr items => (List.length items =? 2)%nat && forallb is_string_number_or_date items
  | _ => false
  end.

(** [v[i]] on an array. *)
Definition element (v : JsValue) (i : nat) : JsValue :=
  match v with
  | JArr items => nth i items JUndefined
  | _ => JUndefined
  end.

(** The two recognised values of [conditionFor]. *)
Inductive Target : Type := qb | find.

Definition target_of (conditionFor : JsValue) : option Target :=
  match conditionFor with
  | JStr s => if String.eqb s "qb" then Some qb
              else if String.eqb s "find" then Some find else None
  | _ => None
  end.

Definition TypeError (msg : string) : JsError :=
  {| name := "TypeError"; message := msg |}.

(** One statement after the other: a throw ends the sequence. *)
Definition bind {A B : Type} (c : Completion A) (k : A -> Completion B)
  : Completion B :=
  match c with
  | Return a => k a
  | Throw e => Throw e
  end.

Notation "x <- c ;; k" := (bind c (fun x => k))
  (at level 61, c at next level, right associativity).

(** A routine of the engine gives a result or throws a [TypeError], kept
    as its message. *)
Definition engine {A : Type} (r : A + string) : Completion A :=
  match r with
  | inl a => Return a
  | inr msg => Throw (TypeError msg)
  end.

(** ** The condition compiler: [parseCondition] *)

Section Compiler.

(** The engine's conversion to a string of a value that is not a string,
    as a template literal does it: the text, or the [TypeError] thrown for
    a symbol and for an object that has no callable [toString] or
    [valueOf].  And [JSON.stringify]: a string, [undefined] for a function
    or a symbol, or the [TypeError] thrown for a bigint. *)
Variable ToString : JsValue -> string + string.
Variable JSON_stringify : JsValue -> JsValue + string.

(** [`${v}`] *)
Definition template (v : JsValue) : Completion string :=
  match v with
  | JStr s => Return s
  | _ => engine (ToString v)
  end.

(** [typeof a !== 'string' || a.trim().length === 0] *)
Definition alias_is_blank (a : JsValue) : bool :=
  match a with
  | JStr s => (String.length (trim s) =? 0)%nat
  | _ => true
  end.

(** One parameter [{ [name]: value }]. *)
Definition one (name : string) (value : JsValue) : Parameters := [(name, value)].

(** The ternary [(conditionFor === "qb") ? {query, parameters} : operator]:
    the branch taken is the one evaluated, and the fragment writes the
    alias [a] and the name [p] = [`${pp}_${a}`] in its templates. *)
Definition emit (t : Target) (a : JsValue) (pp : string)
  (fragment : string -> string -> FindOperatorQB) (operator : FindOperator)
  : Completion Parsed :=
  match t with
  | qb => a <- template a ;; Return (QB (fragment a (pp ++ "_" ++ a)))
  | find => Return (Find operator)
  end.

(** The cases that have no operator of their own: both branches write the
    name in a template, the query [`${a}` ++ tail] or [Raw] of the function
    [alias => `${alias}` ++ tail], with the same parameters. *)
Definition raw (t : Target) (a tail : string) (ps : Parameters) : Completion Parsed :=
  match t with
  | qb => Return (QB {| query := a ++ tail; parameters := Some ps |})
  | find => Return (Find (Raw tail ps))
  end.

(** The body of [switch (conditionOperator)], for the [case] labels.  [a]
    is the alias, [pp] the parameter prefix, [v] is [conditionValue]. *)
Definition switch_case (t : Target) (a : JsValue) (pp : string) (v : JsValue)
  (o : Operator) : Completion Parsed :=
  match o with
  | op_in =>
      if is_array_of_scalars v
      then emit t a pp
             (fun a p => {| query := a ++ " IN (:..." ++ p ++ ")";
                            parameters := Some (one p v) |})
             (In v)
      else Throw (Error "$IN_OPERATOR_MUST_HAVE_AN_ARRAY_OF_STRINGS_OR_NUMBERS")
  | op_notIn =>
      if is_array_of_scalars v
      then emit t a pp
             (fun a p => {| query := a ++ " NOT IN (:..." ++ p ++ ")";
                            parameters := Some (one p v) |})
             (Not (In v))
      else Throw (Error "$IN_OPERATOR_MUST_HAVE_AN_ARRAY_OF_STRINGS_OR_NUMBERS")
  | op_gte =>
      if is_number_string_or_date v
      then emit t a pp
             (fun a p => {| query := a ++ " >= :" ++ p; parameters := Some (one p v) |})
             (MoreThanOrEqual v)
      else Throw (Error "$GTE_OPERATOR_MUST_HAVE_A_NUMBER_STRING_OR_DATE")
  | op_lte =>
      if is_number_string_or_date v
      then emit t a pp
             (fun a p => {| query := a ++ " <= :" ++ p; parameters := Some (one p v) |})
             (LessThanOrEqual v)
      else Throw (Error "$LTE_OPERATOR_MUST_HAVE_A_NUMBER_STRING_OR_DATE")
  | op_gt =>
      if is_number_string_or_date v
      then emit t a pp
             (fun a p => {| query := a ++ " > :" ++ p; parameters := Some (one p v) |})
             (MoreThan v)
      else Throw (Error "$GT_OPERATOR_MUST_HAVE_A_NUMBER_STRING_OR_DATE")
  | op_lt =>
      if is_number_string_or_date v
      then emit t a pp
             (fun a p => {| query := a ++ " < :" ++ p; parameters := Some (one p v) |})
             (LessThan v)
      else Throw (Error "$LT_OPERATOR_MUST_HAVE_A_NUMBER_STRING_OR_DATE")
  | op_between =>
      if is_pair_of_scalars v
      then emit t a pp
             (fun a p => {| query := a ++ " BETWEEN :" ++ p ++ "_start AND :" ++ p ++ "_end";
                            parameters := Some [(p ++ "_start", element v 0);
                                                (p ++ "_end", element v 1)] |})
             (Between (element v 0) (element v 1))
      else Throw (Error "$BETWEEN_OPERATOR_MUST_HAVE_AN_ARRAY_WITH_TWO_VALUES")
  | op_notBetween =>
      if is_pair_of_scalars v
      then emit t a pp
             (fun a p => {| query := a ++ " NOT BETWEEN :" ++ p ++ "_start AND :" ++ p
                                     ++ "_end";
                            parameters := Some [(p ++ "_start", element v 0);
                                                (p ++ "_end", element v 1)] |})
             (Not (Between (element v 0) (element v 1)))
      else Throw (Error "$NOT_BETWEEN_OPERATOR_MUST_HAVE_AN_ARRAY_WITH_TWO_VALUES")
  | op_contains =>
      match v with
      | JStr s =>
          emit t a pp
            (fun a p => {| query := a ++ " LIKE :" ++ p;
                           parameters := Some (one p (JStr ("%" ++ s ++ "%"))) |})
            (Like ("%" ++ s ++ "%"))
      | _ => Throw (Error "$CONTAINS_OPERATOR_MUST_HAVE_A_STRING_VALUE")
      end
  | op_notContains =>
      match v with
      | JStr s =>
          emit t a pp
            (fun a p => {| query := a ++ " NOT LIKE :" ++ p;
                           parameters := Some (one p (JStr ("%" ++ s ++ "%"))) |})
            (Not (Like ("%" ++ s ++ "%")))
      | _ => Throw (Error "$NOT_CONTAINS_OPERATOR_MUST_HAVE_A_STRING_VALUE")
      end
  | op_iContains =>
      match v with
      | JStr s =>
          emit t a pp
            (fun a p => {| query := a ++ " ILIKE :" ++ p;
                           parameters := Some (one p (JStr ("%" ++ s ++ "%"))) |})
            (ILike ("%" ++ s ++ "%"))
      | _ => Throw (Error "$I_CONTAINS_OPERATOR_MUST_HAVE_A_STRING_VALUE")
      end
  | op_notIContains =>
      match v with
      | JStr s =>
          emit t a pp
            (fun a p => {| query := a ++ " NOT ILIKE :" ++ p;
                           parameters := Some (one p (JStr ("%" ++ s ++ "%"))) |})
            (Not (ILike ("%" ++ s ++ "%")))
      | _ => Throw (Error "$NOT_I_CONTAINS_OPERATOR_MUST_HAVE_A_STRING_VALUE")
      end
  | op_startsWith =>
      match v with
      | JStr s =>
          emit t a pp
            (fun a p => {| query := a ++ " LIKE :" ++ p;
                           parameters := Some (one p (JStr (s ++ "%"))) |})
            (Like (s ++ "%"))
      | _ => Throw (Error "$STARTS_WITH_OPERATOR_MUST_HAVE_A_STRING_VALUE")
      end
  | op_notStartsWith =>
      match v with
      | JStr s =>
          emit t a pp
            (fun a p => {| query := a ++ " NOT LIKE :" ++ p;
                           parameters := Some (one p (JStr (s ++ "%"))) |})
            (Not (Like (s ++ "%")))
      | _ => Throw (Error "$NOT_STARTS_WITH_OPERATOR_MUST_HAVE_A_STRING_VALUE")
      end
  | op_endsWith =>
      match v with
      | JStr s =>
          emit t a pp
            (fun a p => {| query := a ++ " LIKE :" ++ p;
                           parameters := Some (one p (JStr ("%" ++ s))) |})
            (Like ("%" ++ s))
      | _ => Throw (Error "$ENDS_WITH_OPERATOR_MUST_HAVE_A_STRING_VALUE")
      end
  | op_notEndsWith =>
      match v with
      | JStr s =>
          emit t a pp
            (fun a p => {| query := a ++ " NOT LIKE :" ++ p;
                           parameters := Some (one p (JStr ("%" ++ s))) |})
            (Not (Like ("%" ++ s)))
      | _ => Throw (Error "$NOT_ENDS_WITH_OPERATOR_MUST_HAVE_A_STRING_VALUE")
      end
  | op_equalTo =>
      if is_string_number_boolean_or_date v
      then emit t a pp
             (fun a p => {| query := a ++ " = :" ++ p; parameters := Some (one p v) |})
             (Equal v)
      else Throw (Error "$EQUAL_TO_OPERATOR_MUST_HAVE_A_STRING_NUMBER_BOOLEAN_OR_DATE_VALUE")
  | op_notEqualTo =>
      if is_string_number_boolean_or_date v
      then emit t a pp
             (fun a p => {| query := a ++ " != :" ++ p; parameters := Some (one p v) |})
             (Not (Equal v))
      else Throw (Error "$NOT_EQUAL_TO_OPERATOR_MUST_HAVE_A_STRING_NUMBER_BOOLEAN_OR_DATE_VALUE")
  | op_regex =>
      match v with
      | JStr _ =>
          a <- template a ;;
          raw t a (" ~ :" ++ pp ++ "_" ++ a) (one (pp ++ "_" ++ a) v)
      | _ => Throw (Error "$REGEX_OPERATOR_MUST_HAVE_A_STRING_VALUE")
      end
  | op_notRegex =>
      match v with
      | JStr _ =>
          a <- template a ;;
          raw t a (" !~ :" ++ pp ++ "_" ++ a) (one (pp ++ "_" ++ a) v)
      | _ => Throw (Error "$NOT_REGEX_OPERATOR_MUST_HAVE_A_STRING_VALUE")
      end
  | op_regexi =>
      match v with
      | JStr _ =>
          a <- template a ;;
          raw t a (" ~* :" ++ pp ++ "_" ++ a) (one (pp ++ "_" ++ a) v)
      | _ => Throw (Error "$REGEXI_OPERATOR_MUST_HAVE_A_STRING_VALUE")
      end
  | op_notRegexi =>
      match v with
      | JStr _ =>
          a <- template a ;;
          raw t a (" !~* :" ++ pp ++ "_" ++ a) (one (pp ++ "_" ++ a) v)
      | _ => Throw (Error "$NOT_REGEXI_OPERATOR_MUST_HAVE_A_STRING_VALUE")
      end
  | op_jsonContains =>
      a <- template a ;;
      json <- engine (JSON_stringify v) ;;
      raw t a (" @> :" ++ pp ++ "_" ++ a) (one (pp ++ "_" ++ a) json)
  | op_jsonContained =>
      a <- template a ;;
      json <- engine (JSON_stringify v) ;;
      raw t a (" <@ :" ++ pp ++ "_" ++ a) (one (pp ++ "_" ++ a) json)
  | op_jsonEquals =>
      a <- template a ;;
      json <- engine (JSON_stringify v) ;;
      raw t a (" = :" ++ pp ++ "_" ++ a) (one (pp ++ "_" ++ a) json)
  | op_jsonHasKey =>
      a <- template a ;;
      let p := pp ++ "_" ++ a in
      raw t a (" ? :" ++ p ++ "_key") (one (p ++ "_key") v)
  end.

(** The branch [typeof condition === 'object' && !Array.isArray(condition)]. *)
Definition parse_object (t : Target) (uniqueId : string) (a condition : JsValue)
  : Completion Parsed :=
  if negb (List.length (Object_keys condition) =? 1)%nat
  then Throw (Error "CONDITION_OBJECT_MUST_HAVE_EXACTLY_ONE_KEY")
  else
    match Object_entries condition with
    | [] => Throw (TypeError "undefined is not iterable")
    | (conditionOperator, conditionValue) :: _ =>
        match conditionOperator with
        | JStr tok =>
            if is_nullish conditionValue
            then Throw (Error "CONDITION_VALUE_CANNOT_BE_UNDEFINED_OR_NULL")
            else
              let pp := uniqueId ++ "_" ++ remove_first_dollar tok in
              match case_of tok with
              | Some o => switch_case t a pp conditionValue o
              | None => Throw (Error ("INVALID_CONDITION_OPERATOR " ++ tok))
              end
        | _ => Throw (Error "CONDITION_OPERATOR_MUST_BE_A_STRING")
        end
    end.

(** The branches after the object branch: array, the two sentinels, bare
    scalar, and the final [else]. *)
Definition parse_bare (t : Target) (uniqueId : string) (a condition : JsValue)
  : Completion Parsed :=
  if is_array_of_scalars condition
  then match t with
       | qb =>
           a <- template a ;;
           Return (QB {| query := a ++ " IN (:..." ++ uniqueId ++ "_in_" ++ a ++ ")";
                         parameters := Some (one (uniqueId ++ "_in_" ++ a) condition) |})
       | find => Return (Find (In condition))
       end
  else if is_the_string condition "$isNull"
  then match t with
       | qb =>
           a <- template a ;;
           Return (QB {| query := a ++ " IS NULL"; parameters := None |})
       | find => Return (Find IsNull)
       end
  else if is_the_string condition "$isNotNull"
  then match t with
       | qb =>
           a <- template a ;;
           Return (QB {| query := a ++ " IS NOT NULL"; parameters := None |})
       | find => Return (Find (Not IsNull))
       end
  else if is_string_number_boolean_or_date condition
  then match t with
       | qb =>
           a <- template a ;;
           Return (QB {| query := a ++ " = :" ++ uniqueId ++ "_eq_" ++ a;
                         parameters := Some (one (uniqueId ++ "_eq_" ++ a) condition) |})
       | find => Return (Find (Equal condition))
       end
  else Throw (Error "INVALID_CONDITION").

(** [parseCondition({ fieldAlias: a, condition, conditionFor })]; [uuid] is
    the value that the call [uuid()] returns. *)
Definition parseCondition (uuid : string) (a condition conditionFor : JsValue)
  : Completion Parsed :=
  match target_of conditionFor with
  | None => Throw (Error "UNSUPPORTED_CONDITION_FOR_VALUE")
  | Some t =>
      let uniqueId := replace_dashes uuid in
      if alias_is_blank a && (match t with qb => true | find => false end)
      then Throw (Error "ALIAS_MUST_BE_A_NON_EMPTY_STRING")
      else if is_nullish condition
      then Throw (Error "CONDITION_CANNOT_BE_UNDEFINED_OR_NULL")
      else if JsType_eqb (typeof condition) TObject && negb (Array_isArray condition)
      then parse_object t uniqueId a condition
      else parse_bare t uniqueId a condition
  end.

End Compiler.

(** ** The boolean composer: [applyWhereConditionsQB] *)

Inductive WhereMethod : Type := andWhere | orWhere.

(** The where-expression builder, as what it has been handed so far: each
    call [qb[whereMethod](query, parameters)] adds a [Condition], each call
    [qb[whereMethod](new Brackets(factory))] runs [factory] on a nested
    builder and adds the group it built once [factory] has returned. *)
#[warnings="-register-all"]
Inductive Clause : Type :=
| Condition (how : WhereMethod) (sql : string) (bound : option Parameters)
| Brackets (how : WhereMethod) (inner : list Clause).

(** The builder and the number of calls made to [uuid()] so far. *)
Record State : Type := { wheres : list Clause; calls : nat }.

Section Loops.

Context {A S E : Type}.
Variable body : A -> S -> S * option E.

(** A [for] loop or [forEach] whose body may throw: the first throw ends
    it. *)
Fixpoint iterate (l : list A) (s : S) : S * option E :=
  match l with
  | [] => (s, None)
  | x :: rest =>
      match body x s with
      | (s', None) => iterate rest s'
      | thrown => thrown
      end
  end.

End Loops.

(** The double quote, as a string. *)
Definition dquote : string := String (ascii_of_nat 34) EmptyString.

(** The [catch] block: a new error that carries the field name. *)
Definition rethrow (field : string) (error : JsError) : JsError :=
  {| name := "TypeORM_QUERY_CONDITION_PARSING_ERROR";
     message := "Error parsing condition for field " ++ dquote ++ field ++ dquote
                ++ ": " ++ message error |}.

(** [const [x, y] = parts], inside a template literal. *)
Definition part (parts : list string) (i : nat) : string :=
  nth i parts "undefined".

(** [let fieldAlias = `${alias}.${field}`; if (field.includes('.')) { ... }] *)
Definition fieldAlias_of (alias field : string) : string :=
  if includes "." field
  then part (split "." field) 0 ++ "." ++ part (split "." field) 1
  else alias ++ "." ++ field.

(** [field === '$and' || field === '$or'] *)
Definition is_logical (field : string) : bool :=
  String.eqb field "$and" || String.eqb field "$or".

(** [field === '$and' ? 'andWhere' : 'orWhere'] *)
Definition nested_method (field : string) : WhereMethod :=
  if String.eqb field "$and" then andWhere else orWhere.

(** [qb[whereMethod](new Brackets(factory))] *)
Definition where_brackets (whereMethod : WhereMethod)
  (factory : State -> State * option JsError) (s : State) : State * option JsError :=
  match factory {| wheres := []; calls := calls s |} with
  | (nestedQb, None) =>
      ({| wheres := wheres s ++ [Brackets whereMethod (wheres nestedQb)];
          calls := calls nestedQb |}, None)
  | (nestedQb, Some e) =>
      ({| wheres := wheres s; calls := calls nestedQb |}, Some e)
  end.

(** An index as a property key. *)
Definition decimal (i : nat) : string := NilEmpty.string_of_uint (Nat.to_uint i).

Fixpoint indexed (i : nat) (l : list JsValue) : list (string * JsValue) :=
  match l with
  | [] => []
  | x :: rest => (decimal i, x) :: indexed (S i) rest
  end.

Fixpoint characters (s : string) : list JsValue :=
  match s with
  | EmptyString => []
  | String c r => JStr (String c EmptyString) :: characters r
  end.

(** The own enumerable properties that [for (const field in v)] visits:
    those of a plain object, the indices of an array or of a string. *)
Definition for_in (v : JsValue) : list (string * JsValue) :=
  match v with
  | JObj props => props
  | JArr items => indexed 0 items
  | JStr s => indexed 0 (characters s)
  | _ => []
  end.

(** [qb[whereMethod](query, parameters)]: the builder takes the clause and
    then looks at the parameters, which it may refuse with an error of its
    own; [refused query parameters] is that error.  The clause stays. *)
Definition where_call (refused : string -> option Parameters -> option JsError)
  (whereMethod : WhereMethod) (query : string) (parameters : option Parameters)
  (s : State) : State * option JsError :=
  ({| wheres := wheres s ++ [Condition whereMethod query parameters];
      calls := calls s |},
   refused query parameters).

Section Composer.

Variable ToString : JsValue -> string + string.
Variable JSON_stringify : JsValue -> JsValue + string.

(** [uuid_v4 n] is what the [n]-th call of [uuid()] returns. *)
Variable uuid_v4 : nat -> string.

(** The error, if any, that the builder throws for a clause. *)
Variable refused : string -> option Parameters -> option JsError.

(** The [else] branch of the loop body: compile the field's condition and
    hand the pair to the builder. *)
Definition where_condition (whereMethod : WhereMethod) (alias field : string)
  (condition : JsValue) (s : State) : State * option JsError :=
  match parseCondition ToString JSON_stringify (uuid_v4 (calls s))
          (JStr (fieldAlias_of alias field)) condition (JStr "qb") with
  | Return (QB r) =>
      where_call refused whereMethod (query r) (parameters r)
        {| wheres := wheres s; calls := Datatypes.S (calls s) |}
  | Return (Find _) =>
      (* not reached, see [parse_qb_is_pair]: both fields are undefined *)
      where_call refused whereMethod "undefined" None
        {| wheres := wheres s; calls := Datatypes.S (calls s) |}
  | Throw e => ({| wheres := wheres s; calls := Datatypes.S (calls s) |}, Some e)
  end.

(** [try { ... } catch (error) { ... throw errorInc }] *)
Definition try_catch (field : string) (r : State * option JsError)
  : State * option JsError :=
  match r with
  | (s', None) => (s', None)
  | (s', Some error) => (s', Some (rethrow field error))
  end.

(** [condition.forEach] on a value that is not an array. *)
Definition no_forEach (condition : JsValue) : JsError :=
  match condition with
  | JNull => TypeError "Cannot read properties of null (reading 'forEach')"
  | JUndefined => TypeError "Cannot read properties of undefined (reading 'forEach')"
  | _ => TypeError "condition.forEach is not a function"
  end.

Fixpoint applyWhereConditionsQB (whereMethod : WhereMethod) (conditions : JsValue)
  (alias : string) (qb : State) {struct conditions} : State * option JsError :=
  match conditions with
  | JObj props =>
      iterate
        (fun (entry : string * JsValue) (qb : State) =>
           let (field, condition) := entry in
           try_catch field
             (if is_logical field
              then where_brackets whereMethod
                     (fun nestedQb =>
                        match condition with
                        | JArr items =>
                            iterate
                              (fun nestedCondition nestedQb =>
                                 applyWhereConditionsQB (nested_method field)
                                   nestedCondition alias nestedQb)
                              items nestedQb
                        | _ => (nestedQb, Some (no_forEach condition))
                        end) qb
              else where_condition whereMethod alias field condition qb))
        props qb
  | _ =>
      (* index keys, never '$and' nor '$or': see [index_key_is_not_logical] *)
      iterate
        (fun (entry : string * JsValue) (qb : State) =>
           let (field, condition) := entry in
           try_catch field (where_condition whereMethod alias field condition qb))
        (for_in conditions) qb
  end.

(** The callback given to [Brackets]. *)
Definition factory (field : string) (condition : JsValue) (alias : string)
  (nestedQb : State) : State * option JsError :=
  match condition with
  | JArr items =>
      iterate (fun nestedCondition nestedQb =>
                 applyWhereConditionsQB (nested_method field) nestedCondition alias nestedQb)
        items nestedQb
  | _ => (nestedQb, Some (no_forEach condition))
  end.

(** The body of the [for ... in] loop, for one own property. *)
Definition field_step (whereMethod : WhereMethod) (alias : string)
  (entry : string * JsValue) (qb : State) : State * option JsError :=
  try_catch (fst entry)
    (if is_logical (fst entry)
     then where_brackets whereMethod (factory (fst entry) (snd entry) alias) qb
     else where_condition whereMethod alias (fst entry) (snd entry) qb).

End Composer.

(** ** Sort order: [applySortOrderQB] *)

Inductive Order : Type := ASC | DESC.

(** The query builder, as far as sorting sees it: its alias and the
    [addOrderBy] calls made so far. *)
Record SelectQueryBuilder : Type :=
  { qb_alias : string; orderBys : list (string * Order) }.

Definition addOrderBy (sortAlias : string) (order : Order) (queryBuilder : SelectQueryBuilder)
  : SelectQueryBuilder :=
  {| qb_alias := qb_alias queryBuilder;
     orderBys := orderBys queryBuilder ++ [(sortAlias, order)] |}.

(** [value === 'ascend' || value === 'asc' || value === 'ascending' || value === 1
    ? 'ASC' : 'DESC'] *)
Definition order_of (value : JsValue) : Order :=
  if is_the_string value "ascend" || is_the_string value "asc"
     || is_the_string value "ascending"
     || (match value with JNum (NInt z) => (z =? 1)%Z | _ => false end)
  then ASC else DESC.

(** The alias that one key of the sort record is ordered under. *)
Definition sort_alias (queryBuilder : SelectQueryBuilder) (key : string) : string :=
  fieldAlias_of (qb_alias queryBuilder) key.

(** [Object.entries(sort).forEach(([key, value]) => ...)]; [sort] is the
    record as the list of its entries. *)
Definition applySortOrderQB (queryBuilder : SelectQueryBuilder)
  (sort : list (string * JsValue)) : SelectQueryBuilder :=
  fold_left (fun queryBuilder (entry : string * JsValue) =>
               addOrderBy (sort_alias queryBuilder (fst entry)) (order_of (snd entry))
                 queryBuilder)
    sort queryBuilder.

(** ** Single conditions and flat filters: [applyWhereConditionQB],
    [applyFiltersQB] *)

Section Filters.

Variable ToString : JsValue -> string + string.
Variable JSON_stringify : JsValue -> JsValue + string.
Variable uuid_v4 : nat -> string.
Variable refused : string -> option Parameters -> option JsError.

(** [applyWhereConditionQB(qb, alias, field, condition, whereMethod)]: the
    alias is always [`${alias}.${field}`], an error is not caught. *)
Definition applyWhereConditionQB (qb : State) (alias field : string)
  (condition : JsValue) (whereMethod : WhereMethod) : State * option JsError :=
  match parseCondition ToString JSON_stringify (uuid_v4 (calls qb))
          (JStr (alias ++ "." ++ field)) condition (JStr "qb") with
  | Return (QB r) =>
      where_call refused whereMethod (query r) (parameters r)
        {| wheres := wheres qb; calls := Datatypes.S (calls qb) |}
  | Return (Find _) =>
      (* not reached, see [parse_qb_is_pair]: both fields are undefined *)
      where_call refused whereMethod "undefined" None
        {| wheres := wheres qb; calls := Datatypes.S (calls qb) |}
  | Throw e => ({| wheres := wheres qb; calls := Datatypes.S (calls qb) |}, Some e)
  end.

(** [applyFiltersQB(queryBuilder, alias, filter)]: [Object.keys(filter)]
    throws on null and undefined, and is read with [filter[field]]. *)
Definition applyFiltersQB (queryBuilder : State) (alias : string) (filter : JsValue)
  : State * option JsError :=
  if is_nullish filter
  then (queryBuilder, Some (TypeError "Cannot convert undefined or null to object"))
  else iterate
         (fun (entry : string * JsValue) (queryBuilder : State) =>
            applyWhereConditionQB queryBuilder alias (fst entry) (snd entry) andWhere)
         (for_in filter) queryBuilder.

End Filters.

(** ** The [switch], read as a table

    What the cases of the [switch] write in fragment mode, operator by
    operator: the token of the case, the text between the alias and the
    placeholder, the placeholder and the names that are bound. *)

Definition token_of (o : Operator) : string :=
  match o with
  | op_in => "$in" | op_notIn => "$notIn"
  | op_gte => "$gte" | op_lte => "$lte" | op_gt => "$gt" | op_lt => "$lt"
  | op_between => "$between" | op_notBetween => "$notBetween"
  | op_contains => "$contains" | op_notContains => "$notContains"
  | op_iContains => "$iContains" | op_notIContains => "$notIContains"
  | op_startsWith => "$startsWith" | op_notStartsWith => "$notStartsWith"
  | op_endsWith => "$endsWith" | op_notEndsWith => "$notEndsWith"
  | op_equalTo => "$equalTo" | op_notEqualTo => "$notEqualTo"
  | op_regex => "$regex" | op_notRegex => "$notRegex"
  | op_regexi => "$regexi" | op_notRegexi => "$notRegexi"
  | op_jsonContains => "$jsonContains" | op_jsonContained => "$jsonContained"
  | op_jsonEquals => "$jsonEquals" | op_jsonHasKey => "$jsonHasKey"
  end.

Definition sql_text (o : Operator) : string :=
  match o with
  | op_in => "IN" | op_notIn => "NOT IN"
  | op_gte => ">=" | op_lte => "<=" | op_gt => ">" | op_lt => "<"
  | op_between => "BETWEEN" | op_notBetween => "NOT BETWEEN"
  | op_contains => "LIKE" | op_notContains => "NOT LIKE"
  | op_iContains => "ILIKE" | op_notIContains => "NOT ILIKE"
  | op_startsWith => "LIKE" | op_notStartsWith => "NOT LIKE"
  | op_endsWith => "LIKE" | op_notEndsWith => "NOT LIKE"
  | op_equalTo => "=" | op_notEqualTo => "!="
  | op_regex => "~" | op_notRegex => "!~"
  | op_regexi => "~*" | op_notRegexi => "!~*"
  | op_jsonContains => "@>" | op_jsonContained => "<@"
  | op_jsonEquals => "=" | op_jsonHasKey => "?"
  end.

(** The names bound by a case, from the name [p] = [`${pp}_${a}`]. *)
Definition bound_names (o : Operator) (p : string) : list string :=
  match o with
  | op_between | op_notBetween => [p ++ "_start"; p ++ "_end"]
  | op_jsonHasKey => [p ++ "_key"]
  | _ => [p]
  end.

Definition placeholder (o : Operator) (p : string) : string :=
  match o with
  | op_in | op_notIn => "(:..." ++ p ++ ")"
  | op_between | op_notBetween => ":" ++ p ++ "_start AND :" ++ p ++ "_end"
  | op_jsonHasKey => ":" ++ p ++ "_key"
  | _ => ":" ++ p
  end.

(** The names that a fragment binds. *)
Definition names_of (r : FindOperatorQB) : list string :=
  match parameters r with
  | Some ps => map fst ps
  | None => []
  end.

Fixpoint all_white_space (s : string) : bool :=
  match s with
  | EmptyString => true
  | String c r => is_white_space c && all_white_space r
  end.

(** The names that a clause binds itself. *)
Definition clause_names (c : Clause) : list string :=
  match c with
  | Condition _ _ (Some ps) => map fst ps
  | _ => []
  end.

(** The method a clause was joined with. *)
Definition clause_method (c : Clause) : WhereMethod :=
  match c with
  | Condition how _ _ => how
  | Brackets how _ => how
  end.

Definition is_condition (c : Clause) : bool :=
  match c with
  | Condition _ _ _ => true
  | Brackets _ _ => false
  end.

(** An operator of the [switch] and the one that negates it. *)
Definition negations : list (string * string) :=
  [ ("$in", "$notIn"); ("$between", "$notBetween");
    ("$contains", "$notContains"); ("$iContains", "$notIContains");
    ("$startsWith", "$notStartsWith"); ("$endsWith", "$notEndsWith");
    ("$equalTo", "$notEqualTo") ].

(** The ordered comparisons: token, operator value, error. *)
Definition comparisons : list (string * (JsValue -> FindOperator) * string) :=
  [ ("$gte", MoreThanOrEqual, "$GTE_OPERATOR_MUST_HAVE_A_NUMBER_STRING_OR_DATE");
    ("$lte", LessThanOrEqual, "$LTE_OPERATOR_MUST_HAVE_A_NUMBER_STRING_OR_DATE");
    ("$gt", MoreThan, "$GT_OPERATOR_MUST_HAVE_A_NUMBER_STRING_OR_DATE");
    ("$lt", LessThan, "$LT_OPERATOR_MUST_HAVE_A_NUMBER_STRING_OR_DATE") ].

(** The pattern operators: token, what is put before and after the operand,
    operator value, error. *)
Definition patterns : list (string * string * string * (string -> FindOperator) * string) :=
  [ ("$contains", "%", "%", Like, "$CONTAINS_OPERATOR_MUST_HAVE_A_STRING_VALUE");
    ("$notContains", "%", "%", fun s => Not (Like s),
      "$NOT_CONTAINS_OPERATOR_MUST_HAVE_A_STRING_VALUE");
    ("$iContains", "%", "%", ILike, "$I_CONTAINS_OPERATOR_MUST_HAVE_A_STRING_VALUE");
    ("$notIContains", "%", "%", fun s => Not (ILike s),
      "$NOT_I_CONTAINS_OPERATOR_MUST_HAVE_A_STRING_VALUE");
    ("$startsWith", "", "%", Like, "$STARTS_WITH_OPERATOR_MUST_HAVE_A_STRING_VALUE");
    ("$notStartsWith", "", "%", fun s => Not (Like s),
      "$NOT_STARTS_WITH_OPERATOR_MUST_HAVE_A_STRING_VALUE");
    ("$endsWith", "%", "", Like, "$ENDS_WITH_OPERATOR_MUST_HAVE_A_STRING_VALUE");
    ("$notEndsWith", "%", "", fun s => Not (Like s),
      "$NOT_ENDS_WITH_OPERATOR_MUST_HAVE_A_STRING_VALUE") ].

(** The JSON operators that bind the JSON text of their operand: token and
    SQL text. *)
Definition json_texts : list (string * string) :=
  [ ("$jsonContains", "@>"); ("$jsonContained", "<@"); ("$jsonEquals", "=") ].

(** [JSON.stringify] on the operand [[1, 2]] of the examples. *)
Definition stringify_numbers (v : JsValue) : JsValue + string := inl (JStr "[1,2]").

(** A second id for the examples. *)
Definition another_uuid : string := "7c1e0f52-3a6b-4d1c-8e2f-5b9a0c4d7e31".

(** A generator whose first ten results have one length. *)
Definition digit_uuid (n : nat) : string := "9b2d-4f6a-" ++ decimal n.

(** ** Values for the worked examples *)

(** The two engine routines for the examples.  The text of a value, as
    a template literal gives it: a symbol, and an object whose own
    [toString] is a number, have none.  Numbers that are not integers,
    dates and arrays are no alias of an example, and stand here with the
    text of a plain object. *)
Definition example_ToString (v : JsValue) : string + string :=
  match v with
  | JUndefined => inl "undefined"
  | JNull => inl "null"
  | JBool true => inl "true"
  | JBool false => inl "false"
  | JNum (NInt z) | JBigInt z => inl (NilZero.string_of_int (Z.to_int z))
  | JNum NNaN => inl "NaN"
  | JNum (NInfinity false) => inl "Infinity"
  | JNum (NInfinity true) => inl "-Infinity"
  | JStr s => inl s
  | JFunction code => inl code
  | JSymbol _ => inr "Cannot convert a Symbol value to a string"
  | JObj ((k, JNum _) :: _) =>
      if String.eqb k "toString"
      then inr "Cannot convert object to primitive value"
      else inl "[object Object]"
  | _ => inl "[object Object]"
  end.

(** [JSON.stringify]: a bigint has no JSON text, [undefined], a function
    and a symbol have [undefined] for it.  Of the other values the examples
    hand over the empty object only. *)
Definition example_stringify (v : JsValue) : JsValue + string :=
  match v with
  | JBigInt _ => inr "Do not know how to serialize a BigInt"
  | JUndefined | JSymbol _ | JFunction _ => inl JUndefined
  | JNull => inl (JStr "null")
  | JBool true => inl (JStr "true")
  | JBool false => inl (JStr "false")
  | JNum (NInt z) => inl (JStr (NilZero.string_of_int (Z.to_int z)))
  | _ => inl (JStr "{}")
  end.

(** A builder for the examples, which refuses what TypeORM's builders
    refuse: a parameter whose name has a character other than a letter, a
    digit, [_] or [.]. *)
Definition is_key_character (c : ascii) : bool :=
  let n := nat_of_ascii c in
  ((48 <=? n) && (n <=? 57) || (65 <=? n) && (n <=? 90)
   || (97 <=? n) && (n <=? 122) || (n =? 95) || (n =? 46))%nat.

Fixpoint all_key_characters (s : string) : bool :=
  match s with
  | EmptyString => true
  | String c r => is_key_character c && all_key_characters r
  end.

Definition is_parameter_key (s : string) : bool :=
  match s with
  | EmptyString => false
  | _ => all_key_characters s
  end.

Definition TypeORMError (msg : string) : JsError :=
  {| name := "TypeORMError"; message := msg |}.

Definition example_refused (query : string) (parameters : option Parameters)
  : option JsError :=
  match parameters with
  | None => None
  | Some ps =>
      if forallb (fun nv : string * JsValue => is_parameter_key (fst nv)) ps
      then None
      else Some (TypeORMError
                   "QueryBuilder parameter keys may only contain numbers, letters, underscores, or periods.")
  end.

Definition example_uuid : string := "1b9d6bcd-bbfd-4b2d-9b5d-ab8dfbbd4bed".

(** A generator that numbers its results. *)
Definition counting_uuid (n : nat) : string := "9b2d-" ++ decimal n.

(** ** Shapes of compiled fragments

    A fragment with the unique id taken out: its texts are sequences of
    fixed pieces and holes for the id. *)

Inductive Piece : Type :=
| Text (s : string)
| Id.

Fixpoint fill (uniqueId : string) (ps : list Piece) : string :=
  match ps with
  | [] => EmptyString
  | Text s :: rest => s ++ fill uniqueId rest
  | Id :: rest => uniqueId ++ fill uniqueId rest
  end.

Record Shape : Type :=
  { query_shape : list Piece;
    parameter_shapes : option (list (list Piece * JsValue)) }.

Definition instantiate (uniqueId : string) (sh : Shape) : FindOperatorQB :=
  {| query := fill uniqueId (query_shape sh);
     parameters :=
       option_map (map (fun nv : list Piece * JsValue => (fill uniqueId (fst nv), snd nv)))
         (parameter_shapes sh) |}.

(** Bare scalars that the compiler reads as equality: a string other than
    the two sentinels, a number, a boolean. *)
Definition is_bare_scalar (v : JsValue) : bool :=
  match v with
  | JStr s => negb (String.eqb s "$isNull") && negb (String.eqb s "$isNotNull")
  | JNum _ | JBool _ => true
  | _ => false
  end.

(** [typeof c === 'object' && !Array.isArray(c)], for [c] not null. *)
Definition is_plain_object (c : JsValue) : bool :=
  JsType_eqb (typeof c) TObject && negb (Array_isArray c).

(** ** Properties *)

(** *** Strings *)

Lemma append_assoc (s1 s2 s3 : string) : (s1 ++ s2) ++ s3 = s1 ++ (s2 ++ s3).
Proof.
  induction s1 as [|c s1 IH]; simpl; [reflexivity | now rewrite IH].
Qed.

Lemma append_nil_r (s : string) : s ++ "" = s.
Proof.
  induction s as [|c s IH]; simpl; [reflexivity | now rewrite IH].
Qed.

Lemma append_cancel_l (s x y : string) : s ++ x = s ++ y -> x = y.
Proof.
  induction s as [|c s IH]; simpl; intros H; [exact H|].
  injection H as H. now apply IH.
Qed.

Lemma length_append (s1 s2 : string) :
  String.length (s1 ++ s2) = (String.length s1 + String.length s2)%nat.
Proof.
  induction s1 as [|c s1 IH]; simpl; [reflexivity | now rewrite IH].
Qed.

(** The parameter name of a bare scalar is never the parameter name of
    [$equalTo], whatever the two ids are. *)
Lemma eq_name_is_not_equalTo_name (u1 u2 a : string) :
  u1 ++ "_eq_" ++ a <> u2 ++ "_equalTo_" ++ a.
Proof.
  revert u1. induction u2 as [|c u2 IH]; intros u1 H.
  - assert (Hl : String.length u1 = 5%nat).
    { apply (f_equal String.length) in H. rewrite !length_append in H.
      simpl in H. lia. }
    destruct u1 as [|c1 [|c2 [|c3 [|c4 [|c5 [|c6 u]]]]]]; try discriminate Hl.
    simpl in H. discriminate H.
  - destruct u1 as [|c1 u1].
    + apply (f_equal String.length) in H. simpl in H.
      rewrite !length_append in H. simpl in H. lia.
    + simpl in H. injection H as _ H. now apply IH in H.
Qed.

(** *** The compiler, branch by branch *)

Section CompilerFacts.

Variable ToString : JsValue -> string + string.
Variable JSON_stringify : JsValue -> JsValue + string.

Local Abbreviation parse := (parseCondition ToString JSON_stringify).


Lemma parse_blank_alias uuid a c cf :
  target_of cf = Some qb -> alias_is_blank a = true ->
  parse uuid a c cf = Throw (Error "ALIAS_MUST_BE_A_NON_EMPTY_STRING").
Proof.
  intros Ht Ha. unfold parseCondition. now rewrite Ht, Ha.
Qed.

(** Past the first two checks. *)
Lemma parse_validated uuid a c cf t :
  target_of cf = Some t ->
  (t = qb -> alias_is_blank a = false) ->
  parse uuid a c cf =
    if is_nullish c then Throw (Error "CONDITION_CANNOT_BE_UNDEFINED_OR_NULL")
    else if JsType_eqb (typeof c) TObject && negb (Array_isArray c)
         then parse_object ToString JSON_stringify t (replace_dashes uuid) a c
         else parse_bare ToString t (replace_dashes uuid) a c.
Proof.
  intros Ht Ha. unfold parseCondition. rewrite Ht.
  destruct t.
  - rewrite (Ha eq_refl). reflexivity.
  - rewrite andb_false_r. reflexivity.
Qed.

Lemma target_qb : target_of (JStr "qb") = Some qb.
Proof. reflexivity. Qed.

Lemma target_find : target_of (JStr "find") = Some find.
Proof. reflexivity. Qed.

(** A single-key object whose operand is present reaches the [switch]. *)
Lemma parse_object_single t u a tok v :
  is_nullish v = false ->
  parse_object ToString JSON_stringify t u a (JObj [(tok, v)]) =
    match case_of tok with
    | Some o =>
        switch_case ToString JSON_stringify t a (u ++ "_" ++ remove_first_dollar tok) v o
    | None => Throw (Error ("INVALID_CONDITION_OPERATOR " ++ tok))
    end.
Proof.
  intros Hv. unfold parse_object. simpl. now rewrite Hv.
Qed.

Lemma scalar_not_nullish v :
  is_string_number_boolean_or_date v = true -> is_nullish v = false.
Proof. now destruct v. Qed.

Lemma bare_scalar_spec v :
  is_bare_scalar v = true ->
  is_nullish v = false
  /\ JsType_eqb (typeof v) TObject && negb (Array_isArray v) = false
  /\ is_array_of_scalars v = false
  /\ is_the_string v "$isNull" = false
  /\ is_the_string v "$isNotNull" = false
  /\ is_string_number_boolean_or_date v = true.
Proof.
  destruct v; simpl; try discriminate; intros H; repeat split; try reflexivity.
  - apply andb_true_iff in H. destruct H as [H _]. now apply negb_true_iff in H.
  - apply andb_true_iff in H. destruct H as [_ H]. now apply negb_true_iff in H.
Qed.

(** Parameter names, written flat. *)
Lemma name_flat (u o a : string) : (u ++ "_" ++ o) ++ "_" ++ a = u ++ "_" ++ o ++ "_" ++ a.
Proof. now rewrite append_assoc. Qed.

(** *** Operators *)

(** C2, as the code has it: for a string alias that is not blank and an
    operand that is a string, number, boolean or Date, [{$notEqualTo: v}]
    compiles in fragment mode to [a != :p] with [p] bound to [v]; this is
    not the text [a <> :p], though [operatorMap] lists [<>] for the token. *)
Theorem notEqualTo_fragment uuid a v :
  alias_is_blank (JStr a) = false ->
  is_string_number_boolean_or_date v = true ->
  let p := replace_dashes uuid ++ "_notEqualTo_" ++ a in
  parse uuid (JStr a) (JObj [("$notEqualTo", v)]) (JStr "qb")
    = Return (QB {| query := a ++ " != :" ++ p; parameters := Some [(p, v)] |})
  /\ a ++ " != :" ++ p <> a ++ " <> :" ++ p
  /\ operatorMap_get operatorMap "$notEqualTo" = Some "<>".
Proof.
  intros Ha Hv p. split; [|split].
  - rewrite (parse_validated uuid (JStr a) _ (JStr "qb") target_qb (fun _ => Ha)).
    cbn [is_nullish typeof JsType_eqb Array_isArray andb negb].
    rewrite parse_object_single by now apply scalar_not_nullish.
    change (case_of "$notEqualTo") with (Some op_notEqualTo).
    cbn [switch_case remove_first_dollar Ascii.eqb Bool.eqb]. rewrite Hv.
    cbn [emit bind template one]. simpl remove_first_dollar. now rewrite name_flat.
  - intros H. apply append_cancel_l in H. discriminate H.
  - reflexivity.
Qed.

(** C10: the empty array as a bare condition is a membership test over the
    empty list, in fragment mode for every string alias that is not blank
    and in operator mode for every alias. *)
Theorem empty_array_is_membership uuid a :
  alias_is_blank (JStr a) = false ->
  let p := replace_dashes uuid ++ "_in_" ++ a in
  parse uuid (JStr a) (JArr []) (JStr "qb")
    = Return (QB {| query := a ++ " IN (:..." ++ p ++ ")";
                    parameters := Some [(p, JArr [])] |})
  /\ forall alias,
       parse uuid alias (JArr []) (JStr "find") = Return (Find (In (JArr []))).
Proof.
  intros Ha p. split.
  - rewrite (parse_validated uuid (JStr a) _ (JStr "qb") target_qb (fun _ => Ha)).
    unfold p. cbn. unfold one. now rewrite !append_assoc.
  - intros alias.
    rewrite (parse_validated uuid alias (JArr []) (JStr "find") target_find)
      by discriminate.
    reflexivity.
Qed.

(** C4, amended: [$jsonHasKey] makes no check of its operand's shape.
    Every operand that is neither null nor undefined, string or not, is
    compiled: to [a ? :p_key] with the operand bound as it is, and in
    operator mode to a raw template with the same binding.  A null or
    undefined operand fails with the error that every operator shares. *)
Theorem jsonHasKey_takes_any_operand uuid a v :
  alias_is_blank (JStr a) = false ->
  let p := replace_dashes uuid ++ "_jsonHasKey_" ++ a ++ "_key" in
  (is_nullish v = false ->
     parse uuid (JStr a) (JObj [("$jsonHasKey", v)]) (JStr "qb")
       = Return (QB {| query := a ++ " ? :" ++ p; parameters := Some [(p, v)] |})
     /\ parse uuid (JStr a) (JObj [("$jsonHasKey", v)]) (JStr "find")
       = Return (Find (Raw (" ? :" ++ p) [(p, v)])))
  /\ (is_nullish v = true ->
     forall cf t, target_of cf = Some t ->
       parse uuid (JStr a) (JObj [("$jsonHasKey", v)]) cf
         = Throw (Error "CONDITION_VALUE_CANNOT_BE_UNDEFINED_OR_NULL")).
Proof.
  intros Ha p. split.
  - intros Hv. split.
    + rewrite (parse_validated uuid (JStr a) _ (JStr "qb") target_qb (fun _ => Ha)).
      cbn [is_nullish typeof JsType_eqb Array_isArray andb negb].
      rewrite parse_object_single by assumption.
      change (case_of "$jsonHasKey") with (Some op_jsonHasKey).
      cbn [switch_case emit raw bind template one]. simpl remove_first_dollar.
      now rewrite !append_assoc.
    + rewrite (parse_validated uuid (JStr a) _ (JStr "find") target_find)
        by discriminate.
      cbn [is_nullish typeof JsType_eqb Array_isArray andb negb].
      rewrite parse_object_single by assumption.
      change (case_of "$jsonHasKey") with (Some op_jsonHasKey).
      cbn [switch_case emit raw bind template one]. simpl remove_first_dollar.
      now rewrite !append_assoc.
  - intros Hv cf t Ht.
    rewrite (parse_validated uuid (JStr a) _ cf Ht (fun _ => Ha)).
    cbn [is_nullish typeof JsType_eqb Array_isArray andb negb].
    unfold parse_object. simpl. now rewrite Hv.
Qed.

(** C3, amended: for a string alias that is not blank and a bare string
    (other than the two sentinels), number or boolean [v], the bare
    condition and [{$equalTo: v}] compile in fragment mode to the same
    query shape [a = :p] with [p] bound to [v], but under different
    parameter names, whatever the ids of the two runs: the operator
    segment is [eq] for the bare value and [equalTo] for the operator
    object.  In operator mode both give [Equal v]. *)
Theorem bare_scalar_and_equalTo uuid a v :
  alias_is_blank (JStr a) = false ->
  is_bare_scalar v = true ->
  let p_bare := replace_dashes uuid ++ "_eq_" ++ a in
  let p_op := replace_dashes uuid ++ "_equalTo_" ++ a in
  parse uuid (JStr a) v (JStr "qb")
    = Return (QB {| query := a ++ " = :" ++ p_bare; parameters := Some [(p_bare, v)] |})
  /\ parse uuid (JStr a) (JObj [("$equalTo", v)]) (JStr "qb")
    = Return (QB {| query := a ++ " = :" ++ p_op; parameters := Some [(p_op, v)] |})
  /\ (forall uuid', p_bare <> replace_dashes uuid' ++ "_equalTo_" ++ a)
  /\ (forall alias,
        parse uuid alias v (JStr "find") = Return (Find (Equal v))
        /\ parse uuid alias (JObj [("$equalTo", v)]) (JStr "find")
           = Return (Find (Equal v))).
Proof.
  intros Ha Hv p_bare p_op.
  destruct (bare_scalar_spec v Hv) as (Hn & Ho & Harr & H1 & H2 & Hs).
  repeat split.
  - rewrite (parse_validated uuid (JStr a) _ (JStr "qb") target_qb (fun _ => Ha)).
    rewrite Hn, Ho. unfold parse_bare. now rewrite Harr, H1, H2, Hs.
  - rewrite (parse_validated uuid (JStr a) _ (JStr "qb") target_qb (fun _ => Ha)).
    cbn [is_nullish typeof JsType_eqb Array_isArray andb negb].
    rewrite parse_object_single by assumption.
    change (case_of "$equalTo") with (Some op_equalTo).
    cbn [switch_case]. rewrite Hs.
    cbn [emit bind template one]. simpl remove_first_dollar. now rewrite name_flat.
  - intros uuid'. apply eq_name_is_not_equalTo_name.
  - rewrite (parse_validated uuid alias _ (JStr "find") target_find) by discriminate.
    rewrite Hn, Ho. unfold parse_bare. now rewrite Harr, H1, H2, Hs.
  - rewrite (parse_validated uuid alias _ (JStr "find") target_find) by discriminate.
    cbn [is_nullish typeof JsType_eqb Array_isArray andb negb].
    rewrite parse_object_single by assumption.
    change (case_of "$equalTo") with (Some op_equalTo).
    cbn [switch_case]. now rewrite Hs.
Qed.

(** *** Validation *)

Lemma parse_missing_condition uuid a c cf t :
  target_of cf = Some t -> (t = qb -> alias_is_blank a = false) ->
  is_nullish c = true ->
  parse uuid a c cf = Throw (Error "CONDITION_CANNOT_BE_UNDEFINED_OR_NULL").
Proof.
  intros Ht Ha Hc. rewrite (parse_validated uuid a c cf Ht Ha). now rewrite Hc.
Qed.

Lemma parse_key_count uuid a c cf t :
  target_of cf = Some t -> (t = qb -> alias_is_blank a = false) ->
  is_nullish c = false -> is_plain_object c = true ->
  List.length (Object_keys c) <> 1%nat ->
  parse uuid a c cf = Throw (Error "CONDITION_OBJECT_MUST_HAVE_EXACTLY_ONE_KEY").
Proof.
  intros Ht Ha Hc Ho Hk. rewrite (parse_validated uuid a c cf Ht Ha).
  unfold is_plain_object in Ho. rewrite Hc, Ho. unfold parse_object.
  apply Nat.eqb_neq in Hk. now rewrite Hk.
Qed.

Lemma parse_single_key uuid a tok v cf t :
  target_of cf = Some t -> (t = qb -> alias_is_blank a = false) ->
  parse uuid a (JObj [(tok, v)]) cf
    = if is_nullish v
      then Throw (Error "CONDITION_VALUE_CANNOT_BE_UNDEFINED_OR_NULL")
      else match case_of tok with
           | Some o =>
               switch_case ToString JSON_stringify t a
                 (replace_dashes uuid ++ "_" ++ remove_first_dollar tok) v o
           | None => Throw (Error ("INVALID_CONDITION_OPERATOR " ++ tok))
           end.
Proof.
  intros Ht Ha. rewrite (parse_validated uuid a _ cf Ht Ha).
  cbn [is_nullish typeof JsType_eqb Array_isArray andb negb].
  destruct (is_nullish v) eqn:Hv.
  - unfold parse_object. simpl. now rewrite Hv.
  - now apply parse_object_single.
Qed.

Ltac split_checks :=
  repeat match goal with
    | |- context [if ?b then _ else _] => destruct b
    | |- context [match ?x with JStr _ => _ | _ => _ end] => destruct x
    | |- context [match ?x with inl _ => _ | inr _ => _ end] => destruct x
    | |- context [engine ?x] => destruct x; cbn [engine bind]
    end.

(** Run the [switch] as far as it goes. *)
Ltac run_switch := cbn [switch_case emit raw bind template].







(** Past the first two checks the alias error is not raised. *)
Lemma validated_never_alias_error uuid a c cf t :
  target_of cf = Some t -> (t = qb -> alias_is_blank a = false) ->
  parse uuid a c cf <> Throw (Error "ALIAS_MUST_BE_A_NON_EMPTY_STRING").
Proof.
  intros Ht Ha. rewrite (parse_validated uuid a c cf Ht Ha).
  destruct (is_nullish c); [discriminate|].
  destruct (JsType_eqb (typeof c) TObject && negb (Array_isArray c)).
  - unfold parse_object.
    destruct (negb (List.length (Object_keys c) =? 1)%nat); [discriminate|].
    destruct (Object_entries c) as [|[k v] rest]; [discriminate|].
    destruct k; try discriminate.
    destruct (is_nullish v); [discriminate|].
    destruct (case_of s) as [o|]; [|cbn; discriminate].
    destruct o, t; cbn [switch_case emit raw]; unfold bind, template, engine;
      split_checks; discriminate.
  - unfold parse_bare, bind, template, engine. destruct t; split_checks; discriminate.
Qed.


(** C6, amended: once the target mode is recognised and, in fragment mode,
    the field reference is a string that is not blank, an object condition
    (not an array) with zero keys or with two or more fails with the
    key-count error, a null or undefined condition with the
    missing-condition error, and a single-key object whose key is no
    operator token and whose operand is neither null nor undefined with the
    unknown-operator error that carries the token. *)
Theorem shape_errors uuid a cf t :
  target_of cf = Some t -> (t = qb -> alias_is_blank a = false) ->
  (forall props, List.length props <> 1%nat ->
     parse uuid a (JObj props) cf
       = Throw (Error "CONDITION_OBJECT_MUST_HAVE_EXACTLY_ONE_KEY"))
  /\ parse uuid a JNull cf = Throw (Error "CONDITION_CANNOT_BE_UNDEFINED_OR_NULL")
  /\ parse uuid a JUndefined cf = Throw (Error "CONDITION_CANNOT_BE_UNDEFINED_OR_NULL")
  /\ (forall tok v, case_of tok = None -> is_nullish v = false ->
     parse uuid a (JObj [(tok, v)]) cf
       = Throw (Error ("INVALID_CONDITION_OPERATOR " ++ tok))).
Proof.
  intros Ht Ha. repeat split.
  - intros props Hk. apply parse_key_count with t; try easy.
    unfold Object_keys, Object_entries. now rewrite !length_map.
  - now apply parse_missing_condition with t.
  - now apply parse_missing_condition with t.
  - intros tok v Htok Hv.
    rewrite (parse_single_key uuid a tok v cf Ht Ha). now rewrite Hv, Htok.
Qed.

(** [Object.entries] yields string keys only. *)
Lemma Object_entries_keys c k v :
  List.In (k, v) (Object_entries c) -> exists s, k = JStr s.
Proof.
  destruct c; simpl; try easy.
  intros H. apply in_map_iff in H. destruct H as [[s x] [H _]].
  injection H as <- _. now exists s.
Qed.

Lemma switch_case_never_string_error t a pp v o :
  switch_case ToString JSON_stringify t a pp v o
    <> Throw (Error "CONDITION_OPERATOR_MUST_BE_A_STRING").
Proof.
  destruct o, t; cbn [switch_case emit raw]; unfold bind, template, engine;
    split_checks; discriminate.
Qed.

(** C9: the key taken from [Object.entries] is always a string, and no
    input makes the compiler raise the operator-must-be-a-string error. *)
Theorem operator_key_is_a_string uuid a c cf :
  Forall (fun kv => exists s, fst kv = JStr s) (Object_entries c)
  /\ parse uuid a c cf <> Throw (Error "CONDITION_OPERATOR_MUST_BE_A_STRING").
Proof.
  split.
  - apply Forall_forall. intros [k v] H. now apply Object_entries_keys in H.
  - unfold parseCondition.
    destruct (target_of cf) as [t|]; [|discriminate].
    cbv zeta.
    destruct (alias_is_blank a && _); [discriminate|].
    destruct (is_nullish c); [discriminate|].
    destruct (JsType_eqb (typeof c) TObject && negb (Array_isArray c)).
    + unfold parse_object.
      destruct (negb (List.length (Object_keys c) =? 1)%nat); [discriminate|].
      destruct (Object_entries c) as [|[k v] rest] eqn:He; [discriminate|].
      destruct (Object_entries_keys c k v) as [s ->]; [rewrite He; now left|].
      destruct (is_nullish v); [discriminate|].
      destruct (case_of s); [apply switch_case_never_string_error|].
      cbn. discriminate.
    + unfold parse_bare, bind, template, engine.
      destruct t; split_checks; discriminate.
Qed.

(** In fragment mode the compiler returns the pair, never an operator
    value. *)
Lemma switch_case_qb_is_pair a pp v o op :
  switch_case ToString JSON_stringify qb a pp v o <> Return (Find op).
Proof.
  destruct o; cbn [switch_case emit raw]; unfold bind, template, engine;
    split_checks; discriminate.
Qed.

Lemma parse_qb_is_pair uuid a c op :
  parse uuid a c (JStr "qb") <> Return (Find op).
Proof.
  unfold parseCondition. rewrite target_qb. cbv zeta.
  destruct (alias_is_blank a && true); [discriminate|].
  destruct (is_nullish c); [discriminate|].
  destruct (JsType_eqb (typeof c) TObject && negb (Array_isArray c)).
  - unfold parse_object.
    destruct (negb (List.length (Object_keys c) =? 1)%nat); [discriminate|].
    destruct (Object_entries c) as [|[k v] rest]; [discriminate|].
    destruct k; try discriminate.
    destruct (is_nullish v); [discriminate|].
    destruct (case_of s); [apply switch_case_qb_is_pair | discriminate].
  - unfold parse_bare, bind, template, engine. split_checks; discriminate.
Qed.

(** *** Determinism up to the unique id *)

Lemma fill_app u ps qs : fill u (ps ++ qs) = fill u ps ++ fill u qs.
Proof.
  induction ps as [|[t|] ps IH]; simpl; [reflexivity| |];
    now rewrite IH, append_assoc.
Qed.

(** The pieces of a text built by concatenation around the id [u]. *)
Ltac pieces_of u s :=
  lazymatch s with
  | u => constr:([Id])
  | append ?x ?y =>
      let px := pieces_of u x in
      let py := pieces_of u y in
      constr:((px ++ py)%list)
  | _ => constr:([Text s])
  end.

Ltac shapes_of u ps :=
  lazymatch ps with
  | nil => constr:(@nil (list Piece * JsValue))
  | cons (?n, ?v) ?rest =>
      let pn := pieces_of u n in
      let pr := shapes_of u rest in
      constr:((pn, v) :: pr)
  end.

(** Give the shape of a fragment written with the id [u], and check it. *)
Ltac give_shape u :=
  lazymatch goal with
  | |- exists sh, forall x, @?f x = _ =>
      let body := eval cbv beta in (f u) in
      lazymatch body with
      | Return (QB {| query := ?q; parameters := Some ?ps |}) =>
          let pq := pieces_of u q in
          let pp := shapes_of u ps in
          exists {| query_shape := pq; parameter_shapes := Some pp |}
      | Return (QB {| query := ?q; parameters := None |}) =>
          let pq := pieces_of u q in
          exists {| query_shape := pq; parameter_shapes := None |}
      end
  end;
  intros;
  unfold instantiate;
  cbn [query_shape parameter_shapes option_map List.map fst snd];
  rewrite ?fill_app; cbn [fill]; rewrite ?append_nil_r; reflexivity.

Lemma switch_case_shape a r v o u0 r0 :
  switch_case ToString JSON_stringify qb (JStr a) (u0 ++ r) v o = Return (QB r0) ->
  exists sh, forall u,
    switch_case ToString JSON_stringify qb (JStr a) (u ++ r) v o
      = Return (QB (instantiate u sh)).
Proof.
  destruct o; run_switch; unfold one; split_checks; intros H;
    try discriminate H; clear H; give_shape u0.
Qed.

Lemma parse_bare_shape a c u0 r0 :
  parse_bare ToString qb u0 (JStr a) c = Return (QB r0) ->
  exists sh, forall u,
    parse_bare ToString qb u (JStr a) c = Return (QB (instantiate u sh)).
Proof.
  unfold parse_bare, one; cbn [bind template]; split_checks; intros H;
    try discriminate H; clear H; give_shape u0.
Qed.

Lemma parse_object_shape a c u0 r0 :
  parse_object ToString JSON_stringify qb u0 (JStr a) c = Return (QB r0) ->
  exists sh, forall u,
    parse_object ToString JSON_stringify qb u (JStr a) c
      = Return (QB (instantiate u sh)).
Proof.
  unfold parse_object.
  destruct (negb (List.length (Object_keys c) =? 1)%nat); [easy|].
  destruct (Object_entries c) as [|[k v] rest]; [easy|].
  destruct k; try easy.
  destruct (is_nullish v); [easy|].
  destruct (case_of s); [|easy].
  apply switch_case_shape.
Qed.

(** C7: compilation is deterministic up to the generated id.  When a
    condition compiles in fragment mode under one id, there is a shape,
    the query and the parameter names with holes for the id and the bound
    values, of which every run is the instance at its own id: two runs
    differ only in the id that fills the holes, and bind equal values
    under corresponding names. *)
Theorem fragment_is_deterministic_up_to_id a c uuid0 r0 :
  parse uuid0 a c (JStr "qb") = Return (QB r0) ->
  exists sh : Shape, forall uuid,
    parse uuid a c (JStr "qb") = Return (QB (instantiate (replace_dashes uuid) sh)).
Proof.
  unfold parseCondition. rewrite target_qb. cbv zeta.
  destruct (alias_is_blank a) eqn:Ha; [easy|]. cbn [andb].
  destruct a as [| | | |s| | | | | |]; try discriminate Ha.
  destruct (is_nullish c); [easy|].
  destruct (JsType_eqb (typeof c) TObject && negb (Array_isArray c)); intros H.
  - destruct (parse_object_shape _ _ _ H) as [sh Hsh].
    exists sh. intros uuid. apply Hsh.
  - destruct (parse_bare_shape _ _ _ H) as [sh Hsh].
    exists sh. intros uuid. apply Hsh.
Qed.

(** *** What a successful run went through *)

Lemma case_of_token_of o : case_of (token_of o) = Some o.
Proof. now destruct o. Qed.

Lemma case_of_inv tok o : case_of tok = Some o -> tok = token_of o.
Proof.
  unfold case_of, tokens. cbn [lookup_token].
  repeat match goal with
    | |- context [String.eqb tok ?k] =>
        destruct (String.eqb_spec tok k) as [->|_];
        [intros H; injection H as <-; reflexivity|]
    end.
  discriminate.
Qed.

Lemma operatorMap_inv tok sql :
  operatorMap_get operatorMap tok = Some sql -> exists o, tok = token_of o.
Proof.
  unfold operatorMap. cbn [operatorMap_get].
  repeat match goal with
    | |- context [String.eqb tok ?k] =>
        destruct (String.eqb_spec tok k) as [->|_];
        [intros _;
         first [ now exists op_in | now exists op_notIn | now exists op_gte
               | now exists op_lte | now exists op_gt | now exists op_lt
               | now exists op_between | now exists op_notBetween
               | now exists op_contains | now exists op_notContains
               | now exists op_iContains | now exists op_notIContains
               | now exists op_startsWith | now exists op_notStartsWith
               | now exists op_endsWith | now exists op_notEndsWith
               | now exists op_equalTo | now exists op_notEqualTo
               | now exists op_regex | now exists op_notRegex
               | now exists op_regexi | now exists op_notRegexi
               | now exists op_jsonContains | now exists op_jsonContained
               | now exists op_jsonEquals | now exists op_jsonHasKey ]|]
    end.
  discriminate.
Qed.

Lemma parse_qb_inv uuid a c r :
  parse uuid a c (JStr "qb") = Return (QB r) ->
  exists s,
    a = JStr s /\ alias_is_blank (JStr s) = false /\ is_nullish c = false
    /\ (if is_plain_object c
        then parse_object ToString JSON_stringify qb (replace_dashes uuid) (JStr s) c
        else parse_bare ToString qb (replace_dashes uuid) (JStr s) c) = Return (QB r).
Proof.
  unfold parseCondition. rewrite target_qb. cbv zeta.
  destruct (alias_is_blank a) eqn:Ha; [discriminate|]. cbn [andb].
  destruct (is_nullish c); [discriminate|].
  destruct a; try discriminate Ha. intros H. exists s. now repeat split.
Qed.

Lemma parse_object_inv t u a c r :
  parse_object ToString JSON_stringify t u a c = Return r ->
  exists tok v o,
    c = JObj [(tok, v)] /\ is_nullish v = false /\ case_of tok = Some o
    /\ switch_case ToString JSON_stringify t a (u ++ "_" ++ remove_first_dollar tok) v o
       = Return r.
Proof.
  unfold parse_object, Object_keys, Object_entries. destruct c; try discriminate.
  destruct props as [|[tok v] [|x rest]]; try discriminate.
  cbn [map fst snd List.length Nat.eqb negb].
  destruct (is_nullish v) eqn:Hv; [discriminate|].
  destruct (case_of tok) as [o|] eqn:Ho; [|discriminate].
  intros H. now exists tok, v, o.
Qed.

(** The four ways a bare condition compiles. *)
Lemma parse_bare_inv u s c r :
  parse_bare ToString qb u (JStr s) c = Return (QB r) ->
  (is_array_of_scalars c = true
   /\ r = {| query := s ++ " IN (:..." ++ u ++ "_in_" ++ s ++ ")";
             parameters := Some [(u ++ "_in_" ++ s, c)] |})
  \/ (c = JStr "$isNull" /\ r = {| query := s ++ " IS NULL"; parameters := None |})
  \/ (c = JStr "$isNotNull" /\ r = {| query := s ++ " IS NOT NULL"; parameters := None |})
  \/ (is_string_number_boolean_or_date c = true
      /\ r = {| query := s ++ " = :" ++ u ++ "_eq_" ++ s;
                parameters := Some [(u ++ "_eq_" ++ s, c)] |}).
Proof.
  unfold parse_bare, one. cbn [bind template].
  destruct (is_array_of_scalars c) eqn:Harr.
  { intros H. injection H as <-. now left. }
  destruct (is_the_string c "$isNull") eqn:H1.
  { intros H. injection H as <-. right; left. split; [|reflexivity].
    destruct c; try discriminate H1. apply String.eqb_eq in H1. now subst. }
  destruct (is_the_string c "$isNotNull") eqn:H2.
  { intros H. injection H as <-. right; right; left. split; [|reflexivity].
    destruct c; try discriminate H2. apply String.eqb_eq in H2. now subst. }
  destruct (is_string_number_boolean_or_date c) eqn:Hs; [|discriminate].
  intros H. injection H as <-. right; right; right. now split.
Qed.

(** The [switch] writes what the table says. *)
Lemma switch_case_table a pp v o r :
  switch_case ToString JSON_stringify qb (JStr a) pp v o = Return (QB r) ->
  query r = a ++ " " ++ sql_text o ++ " " ++ placeholder o (pp ++ "_" ++ a)
  /\ names_of r = bound_names o (pp ++ "_" ++ a).
Proof.
  destruct o; run_switch; unfold one; split_checks; intros H;
    try discriminate H; injection H as <-; split; reflexivity.
Qed.

Lemma bound_names_NoDup o p : NoDup (bound_names o p).
Proof.
  assert (H1 : forall x : string, NoDup [x]).
  { intros x. constructor; [intros []|constructor]. }
  destruct o; cbn [bound_names]; try apply H1.
  all: constructor; [|apply H1].
  all: intros [H|[]]; apply append_cancel_l in H; discriminate H.
Qed.

Lemma bound_names_prefix o p n :
  List.In n (bound_names o p) -> exists rest, n = p ++ rest.
Proof.
  destruct o; cbn [bound_names List.In];
    intros H; repeat (destruct H as [<-|H]); try contradiction;
    solve [ exists EmptyString; now rewrite append_nil_r | eexists; reflexivity ].
Qed.

(** A fragment is a line of the table, or a null check. *)
Lemma fragment_form u s c r :
  (if is_plain_object c
   then parse_object ToString JSON_stringify qb u (JStr s) c
   else parse_bare ToString qb u (JStr s) c) = Return (QB r) ->
  (exists o stem,
     (stem = remove_first_dollar (token_of o) \/ o = op_equalTo /\ stem = "eq")
     /\ query r = s ++ " " ++ sql_text o ++ " "
                  ++ placeholder o (u ++ "_" ++ stem ++ "_" ++ s)
     /\ names_of r = bound_names o (u ++ "_" ++ stem ++ "_" ++ s))
  \/ (parameters r = None
      /\ (query r = s ++ " IS NULL" \/ query r = s ++ " IS NOT NULL")).
Proof.
  destruct (is_plain_object c).
  - intros H. apply parse_object_inv in H.
    destruct H as (tok & v & o & -> & Hv & Ho & H).
    apply switch_case_table in H. destruct H as [Hq Hn].
    apply case_of_inv in Ho. subst tok.
    left. exists o, (remove_first_dollar (token_of o)).
    rewrite name_flat in Hq, Hn. now repeat split; [left| |].
  - intros H. apply parse_bare_inv in H.
    destruct H as [[_ ->]|[[_ ->]|[[_ ->]|[_ ->]]]].
    + left. exists op_in, "in". split; [now left|].
      split; cbn; now rewrite ?append_assoc.
    + right. split; [reflexivity | now left].
    + right. split; [reflexivity | now right].
    + left. exists op_equalTo, "eq". split; [now right|].
      split; cbn; now rewrite ?append_assoc.
Qed.

(** Names and the head of the query of a fragment. *)
Lemma fragment_names u s c r :
  (if is_plain_object c
   then parse_object ToString JSON_stringify qb u (JStr s) c
   else parse_bare ToString qb u (JStr s) c) = Return (QB r) ->
  NoDup (names_of r)
  /\ (forall n, List.In n (names_of r) -> exists rest, n = u ++ "_" ++ rest)
  /\ exists rest, query r = s ++ " " ++ rest.
Proof.
  intros H. apply fragment_form in H.
  destruct H as [(o & stem & _ & Hq & Hn)|[Hp Hq]].
  - rewrite Hn, Hq. split; [apply bound_names_NoDup|]. split.
    + intros n Hin. destruct (bound_names_prefix _ _ _ Hin) as [rest ->].
      eexists. rewrite !append_assoc. reflexivity.
    + eexists. reflexivity.
  - unfold names_of. rewrite Hp. split; [constructor|]. split; [intros n []|].
    destruct Hq as [-> | ->]; eexists; reflexivity.
Qed.

(** *** Parameters and placeholders *)

(** X1: every fragment is written from the table.  The field alias is a
    string [s], and the fragment is either a null check, [s IS NULL] or
    [s IS NOT NULL] with no parameters, or the query [s], the SQL text of an
    operator and that operator's placeholder for the name [id_stem_s], the
    bound names being exactly the names of that placeholder; the stem is
    the operator's token without its dollar sign, or [eq] for a bare
    scalar.  The bound names are pairwise different and each begins with
    the run's id followed by an underscore. *)
Theorem parameters_are_placeholders uuid a c r :
  parse uuid a c (JStr "qb") = Return (QB r) ->
  exists s,
    a = JStr s
    /\ NoDup (names_of r)
    /\ (forall n, List.In n (names_of r) ->
          exists rest, n = replace_dashes uuid ++ "_" ++ rest)
    /\ ((exists o stem,
           (stem = remove_first_dollar (token_of o) \/ o = op_equalTo /\ stem = "eq")
           /\ query r = s ++ " " ++ sql_text o ++ " "
                        ++ placeholder o (replace_dashes uuid ++ "_" ++ stem ++ "_" ++ s)
           /\ names_of r
              = bound_names o (replace_dashes uuid ++ "_" ++ stem ++ "_" ++ s))
        \/ (parameters r = None
            /\ (query r = s ++ " IS NULL" \/ query r = s ++ " IS NOT NULL"))).
Proof.
  intros H. apply parse_qb_inv in H. destruct H as (s & -> & _ & _ & H).
  exists s. split; [reflexivity|].
  pose proof H as H'. apply fragment_names in H'. destruct H' as (Hd & Hn & _).
  split; [exact Hd|]. split; [exact Hn|]. apply fragment_form in H. exact H.
Qed.

Lemma append_differs (u1 u2 x y : string) :
  String.length u1 = String.length u2 -> u1 <> u2 -> u1 ++ x <> u2 ++ y.
Proof.
  revert u2. induction u1 as [|c u1 IH]; intros [|d u2] Hl Hne H;
    try discriminate Hl.
  - now apply Hne.
  - simpl in H. injection H as -> H. simpl in Hl. injection Hl as Hl.
    apply (IH u2 Hl); [|exact H]. intros ->. now apply Hne.
Qed.

(** X2: two fragments compiled under ids of one length that differ once
    their dashes are replaced share no parameter name, whatever the fields
    and the conditions are. *)
Theorem runs_share_no_name uuid1 uuid2 a1 a2 c1 c2 r1 r2 :
  parse uuid1 a1 c1 (JStr "qb") = Return (QB r1) ->
  parse uuid2 a2 c2 (JStr "qb") = Return (QB r2) ->
  String.length uuid1 = String.length uuid2 ->
  replace_dashes uuid1 <> replace_dashes uuid2 ->
  forall n1 n2, List.In n1 (names_of r1) -> List.In n2 (names_of r2) -> n1 <> n2.
Proof.
  intros H1 H2 Hl Hne n1 n2 Hn1 Hn2.
  apply parse_qb_inv in H1. destruct H1 as (s1 & -> & _ & _ & H1).
  apply parse_qb_inv in H2. destruct H2 as (s2 & -> & _ & _ & H2).
  apply fragment_names in H1. destruct H1 as (_ & H1 & _).
  apply fragment_names in H2. destruct H2 as (_ & H2 & _).
  destruct (H1 _ Hn1) as [x ->]. destruct (H2 _ Hn2) as [y ->].
  apply append_differs; [|assumption].
  clear -Hl. revert uuid2 Hl.
  induction uuid1 as [|c u IH]; intros [|d v] Hl; try discriminate Hl;
    [reflexivity|].
  simpl. f_equal. apply IH. now injection Hl.
Qed.

(** *** The operator table of the file *)

(** X3: [operatorMap] and the [switch] know the same tokens, and for every
    token but [$notEqualTo] the query of a compiled operator object is the
    alias, which is a string, a space, the token's text in [operatorMap],
    a space, and the placeholder. *)
Theorem switch_follows_operatorMap :
  (forall tok,
     (exists o, case_of tok = Some o)
     <-> (exists sql, operatorMap_get operatorMap tok = Some sql))
  /\ (forall uuid a tok v r sql,
        parse uuid a (JObj [(tok, v)]) (JStr "qb") = Return (QB r) ->
        operatorMap_get operatorMap tok = Some sql ->
        tok <> "$notEqualTo" ->
        exists s rest, a = JStr s /\ query r = s ++ " " ++ sql ++ " " ++ rest).
Proof.
  split.
  - intros tok. split.
    + intros [o Ho]. apply case_of_inv in Ho. subst tok.
      destruct o; eexists; reflexivity.
    + intros [sql Hs]. apply operatorMap_inv in Hs. destruct Hs as [o ->].
      exists o. apply case_of_token_of.
  - intros uuid a tok v r sql H Hs Hne.
    apply parse_qb_inv in H. destruct H as (s & -> & _ & _ & H).
    cbn [is_plain_object typeof JsType_eqb Array_isArray andb negb] in H.
    apply parse_object_inv in H.
    destruct H as (tok' & v' & o & Heq & _ & Ho & H).
    injection Heq as <- <-.
    apply switch_case_table in H. destruct H as [Hq _].
    apply case_of_inv in Ho. subst tok.
    exists s, (placeholder o ((replace_dashes uuid ++ "_"
                                 ++ remove_first_dollar (token_of o)) ++ "_" ++ s)).
    split; [reflexivity|]. rewrite Hq.
    destruct o; try (injection Hs as <-; reflexivity).
    now elim Hne.
Qed.

(** *** The two modes *)






(** *** Bare arrays *)

(** X5: a bare array of strings, numbers and dates is [{$in: array}]: the
    two compile to the same result in both modes, down to the parameter
    name.  A bare array with any other item fails with the
    invalid-condition error, the operator object with the error of [$in]. *)
Theorem bare_array_is_in uuid a items cf :
  (forallb is_string_number_or_date items = true ->
     parse uuid a (JArr items) cf = parse uuid a (JObj [("$in", JArr items)]) cf)
  /\ (forallb is_string_number_or_date items = false ->
      forall t, target_of cf = Some t -> (t = qb -> alias_is_blank a = false) ->
        parse uuid a (JArr items) cf = Throw (Error "INVALID_CONDITION")
        /\ parse uuid a (JObj [("$in", JArr items)]) cf
           = Throw (Error "$IN_OPERATOR_MUST_HAVE_AN_ARRAY_OF_STRINGS_OR_NUMBERS")).
Proof.
  split.
  - intros Hs. unfold parseCondition.
    destruct (target_of cf) as [t|]; [|reflexivity]. cbv zeta.
    destruct (alias_is_blank a && _); [reflexivity|].
    cbn [is_nullish typeof JsType_eqb Array_isArray andb negb].
    rewrite parse_object_single by reflexivity.
    change (case_of "$in") with (Some op_in).
    unfold parse_bare. cbn [switch_case is_array_of_scalars]. rewrite Hs.
    simpl remove_first_dollar. destruct t; cbn [emit]; [|reflexivity].
    destruct (template ToString a); cbn [bind]; [|reflexivity].
    unfold one. now rewrite ?append_assoc.
  - intros Hs t Ht Ha. split.
    + rewrite (parse_validated uuid a _ cf Ht Ha).
      cbn [is_nullish typeof JsType_eqb Array_isArray andb negb].
      unfold parse_bare. cbn [is_array_of_scalars]. now rewrite Hs.
    + rewrite (parse_single_key uuid a "$in" (JArr items) cf Ht Ha).
      cbn [is_nullish]. change (case_of "$in") with (Some op_in).
      cbn [switch_case is_array_of_scalars]. now rewrite Hs.
Qed.

Lemma switch_case_never_invalid_condition t a pp v o :
  switch_case ToString JSON_stringify t a pp v o <> Throw (Error "INVALID_CONDITION").
Proof.
  destruct o, t; cbn [switch_case emit raw]; unfold bind, template, engine;
    split_checks; discriminate.
Qed.

Lemma parse_object_never_invalid_condition t u a c :
  parse_object ToString JSON_stringify t u a c <> Throw (Error "INVALID_CONDITION").
Proof.
  unfold parse_object.
  destruct (negb (List.length (Object_keys c) =? 1)%nat); [discriminate|].
  destruct (Object_entries c) as [|[k v] rest]; [discriminate|].
  destruct k; try discriminate.
  destruct (is_nullish v); [discriminate|].
  destruct (case_of s); [apply switch_case_never_invalid_condition|].
  cbn. discriminate.
Qed.

(** X6: the invalid-condition error is raised for two kinds of input only:
    past the checks of the mode and of the alias, an array holding an item
    that is not a string, a number or a date, and a bigint, a symbol or a
    function. *)
Theorem invalid_condition_iff uuid a c cf :
  parse uuid a c cf = Throw (Error "INVALID_CONDITION")
  <-> (exists t, target_of cf = Some t /\ (t = qb -> alias_is_blank a = false))
      /\ ((exists items,
             c = JArr items /\ forallb is_string_number_or_date items = false)
          \/ List.In (typeof c) [TBigInt; TSymbol; TFunction]).
Proof.
  split.
  - unfold parseCondition.
    destruct (target_of cf) as [t|]; [|discriminate]. cbv zeta.
    destruct (alias_is_blank a && _) eqn:Ha; [discriminate|].
    destruct (is_nullish c) eqn:Hn; [discriminate|].
    destruct (JsType_eqb (typeof c) TObject && negb (Array_isArray c)) eqn:Ho.
    { intros H. now apply parse_object_never_invalid_condition in H. }
    intros H. split.
    + exists t. split; [reflexivity|]. intros ->.
      now rewrite andb_true_r in Ha.
    + revert H. unfold parse_bare.
      destruct (is_array_of_scalars c) eqn:Harr.
      { unfold bind, template, engine. destruct t; split_checks; discriminate. }
      destruct (is_the_string c "$isNull").
      { unfold bind, template, engine. destruct t; split_checks; discriminate. }
      destruct (is_the_string c "$isNotNull").
      { unfold bind, template, engine. destruct t; split_checks; discriminate. }
      destruct (is_string_number_boolean_or_date c) eqn:Hs.
      { unfold bind, template, engine. destruct t; split_checks; discriminate. }
      intros _. destruct c; try discriminate.
      * left. now exists items.
      * right. cbn. tauto.
      * right. cbn. tauto.
      * right. cbn. tauto.
  - intros [(t & Ht & Ha) [(items & -> & Hs)|Hc]].
    + rewrite (parse_validated uuid a _ cf Ht Ha).
      cbn [is_nullish typeof JsType_eqb Array_isArray andb negb].
      unfold parse_bare. cbn [is_array_of_scalars]. now rewrite Hs.
    + rewrite (parse_validated uuid a _ cf Ht Ha).
      destruct c; cbn in Hc; try (exfalso; intuition discriminate); reflexivity.
Qed.

(** *** The alias check *)

Lemma trimStart_all s : all_white_space s = true -> trimStart s = "".
Proof.
  induction s as [|c s IH]; simpl; [reflexivity|].
  intros H. apply andb_true_iff in H. destruct H as [Hc Hs].
  rewrite Hc. now apply IH.
Qed.

Lemma trimStart_not_all s :
  all_white_space s = false ->
  exists c r, trimStart s = String c r /\ is_white_space c = false.
Proof.
  induction s as [|c s IH]; simpl; [discriminate|].
  destruct (is_white_space c) eqn:Hc; simpl.
  - apply IH.
  - intros _. now exists c, s.
Qed.

Lemma trimEnd_head c r : is_white_space c = false -> trimEnd (String c r) <> "".
Proof.
  intros Hc. simpl. rewrite Hc. now destruct (trimEnd r).
Qed.

Lemma blank_iff s :
  (String.length (trim s) =? 0)%nat = true <-> all_white_space s = true.
Proof.
  unfold trim. destruct (all_white_space s) eqn:Hs.
  - rewrite (trimStart_all _ Hs). now split.
  - destruct (trimStart_not_all _ Hs) as (c & r & -> & Hc).
    pose proof (trimEnd_head c r Hc) as Hne.
    destruct (trimEnd (String c r)); [now elim Hne|]. now split.
Qed.


(** X7: the alias error is raised in fragment mode exactly when the field
    alias is not a string or is a string of white space only (the empty
    string included), whatever the condition is; operator mode never
    raises it. *)
Theorem alias_error_iff uuid a c :
  (parse uuid a c (JStr "qb") = Throw (Error "ALIAS_MUST_BE_A_NON_EMPTY_STRING")
   <-> (forall s, a = JStr s -> all_white_space s = true))
  /\ parse uuid a c (JStr "find") <> Throw (Error "ALIAS_MUST_BE_A_NON_EMPTY_STRING").
Proof.
  split; [|apply validated_never_alias_error with find; easy].
  destruct (alias_is_blank a) eqn:Ha.
  - rewrite (parse_blank_alias uuid a c (JStr "qb") target_qb Ha). split; [|reflexivity].
    intros _ s ->. now apply blank_iff.
  - split.
    + intros H. now apply validated_never_alias_error with (t := qb) in H.
    + intros H. destruct a; try discriminate Ha.
      cbn [alias_is_blank] in Ha. rewrite (proj2 (blank_iff s) (H s eq_refl)) in Ha.
      discriminate Ha.
Qed.

(** X8: the id used in parameter names has no dash: replacing the dashes
    keeps the length, leaves no dash, and changes nothing in a text that
    has none. *)
Theorem uniqueId_has_no_dash s :
  includes "-" (replace_dashes s) = false
  /\ String.length (replace_dashes s) = String.length s
  /\ (includes "-" s = false -> replace_dashes s = s).
Proof.
  induction s as [|c s (IH1 & IH2 & IH3)]; [now repeat split|].
  cbn [replace_dashes includes String.length].
  destruct (Ascii.eqb_spec c "-") as [->|Hc].
  - repeat split; [exact IH1 | now rewrite IH2 | discriminate].
  - apply Ascii.eqb_neq in Hc. rewrite Hc. cbn [orb].
    repeat split; [exact IH1 | now rewrite IH2 | intros H; now rewrite (IH3 H)].
Qed.

(** *** Families of operators *)

Ltac single_key Ha :=
  erewrite parse_single_key
    by first [exact target_qb | exact target_find | (intros _; exact Ha) | discriminate].

(** X9: the four ordered comparisons.  For an operand that is a number, a
    string or a date the fragment is the alias, the token's text in
    [operatorMap] and one placeholder bound to the operand, and the
    operator value is the comparison of the operand; any other operand, a
    boolean included, fails with the error of the operator, in both
    modes. *)
Theorem ordered_comparisons tok mk err :
  List.In (tok, mk, err) comparisons ->
  forall uuid s v,
    alias_is_blank (JStr s) = false -> is_nullish v = false ->
    exists sql,
      operatorMap_get operatorMap tok = Some sql
      /\ (is_number_string_or_date v = true ->
          parse uuid (JStr s) (JObj [(tok, v)]) (JStr "qb")
          = Return (QB {| query := s ++ " " ++ sql ++ " :" ++ replace_dashes uuid ++ "_"
                                   ++ remove_first_dollar tok ++ "_" ++ s;
                          parameters :=
                            Some [(replace_dashes uuid ++ "_" ++ remove_first_dollar tok
                                   ++ "_" ++ s, v)] |})
          /\ forall a', parse uuid a' (JObj [(tok, v)]) (JStr "find")
                        = Return (Find (mk v)))
      /\ (is_number_string_or_date v = false ->
          parse uuid (JStr s) (JObj [(tok, v)]) (JStr "qb") = Throw (Error err)
          /\ forall a', parse uuid a' (JObj [(tok, v)]) (JStr "find")
                        = Throw (Error err)).
Proof.
  intros Hin uuid s v Ha Hv.
  cbn [comparisons List.In] in Hin.
  repeat (destruct Hin as [Hin|Hin]; [injection Hin as <- <- <-|]); try contradiction.
  all: eexists; split; [reflexivity|].
  all: split; intros Hs; (split; [|intros a']); single_key Ha; rewrite Hv;
    match goal with
    | |- context [case_of ?k] =>
        let o := eval vm_compute in (case_of k) in change (case_of k) with o
    end;
    cbn [switch_case]; rewrite Hs; cbn [emit bind template]; unfold one;
    simpl remove_first_dollar; now rewrite ?append_assoc.
Qed.

(** X10: the eight pattern operators.  A string operand is bound with
    the operator's wildcards put around it, unescaped: [%s%] for the
    contains family, [s%] for starts-with, [%s] for ends-with; the text
    between alias and placeholder is the token's in [operatorMap]; the
    operator value is [Like] or [ILike] of the same pattern, negated for
    the [not] forms.  Any other operand fails with the error of the
    operator. *)
Theorem pattern_operators tok before after mk err :
  List.In (tok, before, after, mk, err) patterns ->
  forall uuid s v,
    alias_is_blank (JStr s) = false -> is_nullish v = false ->
    exists sql,
      operatorMap_get operatorMap tok = Some sql
      /\ (forall x, v = JStr x ->
          parse uuid (JStr s) (JObj [(tok, v)]) (JStr "qb")
          = Return (QB {| query := s ++ " " ++ sql ++ " :" ++ replace_dashes uuid ++ "_"
                                   ++ remove_first_dollar tok ++ "_" ++ s;
                          parameters :=
                            Some [(replace_dashes uuid ++ "_" ++ remove_first_dollar tok
                                   ++ "_" ++ s, JStr (before ++ x ++ after))] |})
          /\ forall a', parse uuid a' (JObj [(tok, v)]) (JStr "find")
                        = Return (Find (mk (before ++ x ++ after))))
      /\ ((forall x, v <> JStr x) ->
          parse uuid (JStr s) (JObj [(tok, v)]) (JStr "qb") = Throw (Error err)
          /\ forall a', parse uuid a' (JObj [(tok, v)]) (JStr "find")
                        = Throw (Error err)).
Proof.
  intros Hin uuid s v Ha Hv.
  cbn [patterns List.In] in Hin.
  repeat (destruct Hin as [Hin|Hin]; [injection Hin as <- <- <- <- <-|]);
    try contradiction.
  all: eexists; split; [reflexivity|].
  all: split; [intros x -> | intros Hs]; (split; [|intros a']); single_key Ha;
    cbn [is_nullish];
    match goal with
    | |- context [case_of ?k] =>
        let o := eval vm_compute in (case_of k) in change (case_of k) with o
    end;
    cbn [switch_case].
  all: try (cbn [emit bind template]; unfold one; simpl remove_first_dollar;
            rewrite ?append_nil_r; now rewrite ?append_assoc).
  all: destruct v as [| | | |x| | | | | |]; try discriminate Hv; try reflexivity;
    now elim (Hs x).
Qed.

Lemma pair_of_scalars_iff v :
  is_pair_of_scalars v = true
  <-> exists x y, v = JArr [x; y]
                  /\ is_string_number_or_date x = true
                  /\ is_string_number_or_date y = true.
Proof.
  split.
  - destruct v; try discriminate.
    destruct items as [|x [|y [|z rest]]]; try discriminate.
    cbn. intros H. apply andb_true_iff in H. destruct H as [Hx Hy].
    rewrite andb_true_r in Hy. now exists x, y.
  - intros (x & y & -> & Hx & Hy). cbn. now rewrite Hx, Hy.
Qed.

(** X11: the range operators.  The operand has to be an array of exactly
    two items, each a string, a number or a date; the first is bound
    under the name ending in [_start], the second under the name ending in
    [_end], and the operator value is [Between] of the two, negated for
    [$notBetween].  Every other operand fails with the error of the
    operator. *)
Theorem range_operators uuid s v :
  alias_is_blank (JStr s) = false -> is_nullish v = false ->
  (is_pair_of_scalars v = true
   <-> exists x y, v = JArr [x; y]
                   /\ is_string_number_or_date x = true
                   /\ is_string_number_or_date y = true)
  /\ (forall x y, v = JArr [x; y] ->
      is_string_number_or_date x = true -> is_string_number_or_date y = true ->
      parse uuid (JStr s) (JObj [("$between", v)]) (JStr "qb")
      = Return (QB {| query := s ++ " BETWEEN :" ++ replace_dashes uuid ++ "_between_" ++ s
                               ++ "_start AND :" ++ replace_dashes uuid ++ "_between_" ++ s
                               ++ "_end";
                      parameters :=
                        Some [(replace_dashes uuid ++ "_between_" ++ s ++ "_start", x);
                              (replace_dashes uuid ++ "_between_" ++ s ++ "_end", y)] |})
      /\ parse uuid (JStr s) (JObj [("$notBetween", v)]) (JStr "qb")
      = Return (QB {| query := s ++ " NOT BETWEEN :" ++ replace_dashes uuid
                               ++ "_notBetween_" ++ s ++ "_start AND :"
                               ++ replace_dashes uuid ++ "_notBetween_" ++ s ++ "_end";
                      parameters :=
                        Some [(replace_dashes uuid ++ "_notBetween_" ++ s ++ "_start", x);
                              (replace_dashes uuid ++ "_notBetween_" ++ s ++ "_end", y)] |})
      /\ forall a',
           parse uuid a' (JObj [("$between", v)]) (JStr "find")
           = Return (Find (Between x y))
           /\ parse uuid a' (JObj [("$notBetween", v)]) (JStr "find")
              = Return (Find (Not (Between x y))))
  /\ (is_pair_of_scalars v = false ->
      forall a' cf t, target_of cf = Some t -> (t = qb -> alias_is_blank a' = false) ->
        parse uuid a' (JObj [("$between", v)]) cf
        = Throw (Error "$BETWEEN_OPERATOR_MUST_HAVE_AN_ARRAY_WITH_TWO_VALUES")
        /\ parse uuid a' (JObj [("$notBetween", v)]) cf
           = Throw (Error "$NOT_BETWEEN_OPERATOR_MUST_HAVE_AN_ARRAY_WITH_TWO_VALUES")).
Proof.
  intros Ha Hv. split; [apply pair_of_scalars_iff|]. split.
  - intros x y -> Hx Hy.
    assert (Hp : is_pair_of_scalars (JArr [x; y]) = true).
    { apply pair_of_scalars_iff. now exists x, y. }
    repeat split; try intros a'; single_key Ha; cbn [is_nullish];
      match goal with
      | |- context [case_of ?k] =>
          let o := eval vm_compute in (case_of k) in change (case_of k) with o
      end;
      cbn [switch_case]; rewrite Hp; cbn [emit bind template element nth];
      try reflexivity; simpl remove_first_dollar; now rewrite ?append_assoc.
  - intros Hp a' cf t Ht Ha'.
    rewrite !(parse_single_key uuid a' _ v cf Ht Ha'), Hv.
    change (case_of "$between") with (Some op_between).
    change (case_of "$notBetween") with (Some op_notBetween).
    cbn [switch_case]. now rewrite Hp.
Qed.

(** X12: the three JSON operators that bind JSON text make no check of
    the operand's shape: every operand that is neither null nor undefined
    is handed to [JSON.stringify].  What that returns, a string, or
    [undefined] for a function or a symbol, is bound under one placeholder
    after the token's text in [operatorMap], and in operator mode the
    same text and binding are handed over as a raw template; what it
    throws, as for a bigint, is thrown by the compiler in both modes. *)
Theorem json_text_operators tok sql :
  List.In (tok, sql) json_texts ->
  forall uuid s v,
    alias_is_blank (JStr s) = false -> is_nullish v = false ->
    operatorMap_get operatorMap tok = Some sql
    /\ (forall json, JSON_stringify v = inl json ->
        parse uuid (JStr s) (JObj [(tok, v)]) (JStr "qb")
        = Return (QB {| query := s ++ " " ++ sql ++ " :" ++ replace_dashes uuid ++ "_"
                                 ++ remove_first_dollar tok ++ "_" ++ s;
                        parameters :=
                          Some [(replace_dashes uuid ++ "_" ++ remove_first_dollar tok
                                 ++ "_" ++ s, json)] |})
        /\ parse uuid (JStr s) (JObj [(tok, v)]) (JStr "find")
           = Return (Find (Raw (" " ++ sql ++ " :" ++ replace_dashes uuid ++ "_"
                                ++ remove_first_dollar tok ++ "_" ++ s)
                             [(replace_dashes uuid ++ "_" ++ remove_first_dollar tok
                               ++ "_" ++ s, json)])))
    /\ (forall msg, JSON_stringify v = inr msg ->
        parse uuid (JStr s) (JObj [(tok, v)]) (JStr "qb") = Throw (TypeError msg)
        /\ parse uuid (JStr s) (JObj [(tok, v)]) (JStr "find") = Throw (TypeError msg)).
Proof.
  intros Hin uuid s v Ha Hv.
  cbn [json_texts List.In] in Hin.
  repeat (destruct Hin as [Hin|Hin]; [injection Hin as <- <-|]); try contradiction.
  all: split; [reflexivity|].
  all: split; [intros json Hj | intros msg Hj]; split; single_key Ha; rewrite Hv;
    match goal with
    | |- context [case_of ?k] =>
        let o := eval vm_compute in (case_of k) in change (case_of k) with o
    end;
    run_switch; rewrite Hj; cbn [engine bind raw]; unfold one;
    simpl remove_first_dollar; now rewrite ?append_assoc.
Qed.

(** X13: negation in operator mode.  For each of the seven operators that
    have a [not] form, the [not] form accepts the same operands and
    returns [Not] of what the plain form returns. *)
Theorem negated_operators tok ntok :
  List.In (tok, ntok) negations ->
  forall uuid a v o,
    parse uuid a (JObj [(tok, v)]) (JStr "find") = Return (Find o)
    <-> parse uuid a (JObj [(ntok, v)]) (JStr "find") = Return (Find (Not o)).
Proof.
  intros Hin uuid a v o.
  cbn [negations List.In] in Hin.
  repeat (destruct Hin as [Hin|Hin]; [injection Hin as <- <-|]); try contradiction.
  all: rewrite !(parse_single_key uuid a _ v (JStr "find") target_find)
         by discriminate.
  all: destruct (is_nullish v); [split; discriminate|].
  all: repeat match goal with
         | |- context [case_of ?k] =>
             let c := eval vm_compute in (case_of k) in change (case_of k) with c
         end;
       cbn [switch_case emit]; split_checks;
       split; intros H; try discriminate H; injection H as <-; reflexivity.
Qed.

(** X14: the two sentinels bind nothing and use no id: ['$isNull'] is
    [a IS NULL] and [IsNull()], ['$isNotNull'] is [a IS NOT NULL] and
    [Not(IsNull())], for every id.  As operand of [$equalTo] a sentinel is
    an ordinary string that is bound and compared. *)
Theorem null_checks uuid s :
  alias_is_blank (JStr s) = false ->
  parse uuid (JStr s) (JStr "$isNull") (JStr "qb")
  = Return (QB {| query := s ++ " IS NULL"; parameters := None |})
  /\ parse uuid (JStr s) (JStr "$isNotNull") (JStr "qb")
     = Return (QB {| query := s ++ " IS NOT NULL"; parameters := None |})
  /\ (forall a',
        parse uuid a' (JStr "$isNull") (JStr "find") = Return (Find IsNull)
        /\ parse uuid a' (JStr "$isNotNull") (JStr "find")
           = Return (Find (Not IsNull)))
  /\ parse uuid (JStr s) (JObj [("$equalTo", JStr "$isNull")]) (JStr "qb")
     = Return (QB {| query := s ++ " = :" ++ replace_dashes uuid ++ "_equalTo_" ++ s;
                     parameters :=
                       Some [(replace_dashes uuid ++ "_equalTo_" ++ s,
                              JStr "$isNull")] |}).
Proof.
  intros Ha. split; [|split; [|split]].
  - now rewrite (parse_validated uuid (JStr s) _ (JStr "qb") target_qb (fun _ => Ha)).
  - now rewrite (parse_validated uuid (JStr s) _ (JStr "qb") target_qb (fun _ => Ha)).
  - intros a'. split;
      now rewrite (parse_validated uuid a' _ (JStr "find") target_find) by discriminate.
  - single_key Ha. cbn [is_nullish].
    change (case_of "$equalTo") with (Some op_equalTo).
    run_switch. unfold one. simpl remove_first_dollar.
    now rewrite ?append_assoc.
Qed.


End CompilerFacts.

(** *** The composer *)

(** A loop that ends by a throw has a first element whose body threw: the
    elements before it ran to their end. *)
Lemma iterate_thrown {A S E : Type} (body : A -> S -> S * option E) l s s' e :
  iterate body l s = (s', Some e) ->
  exists pre x post s1,
    l = (pre ++ x :: post)%list
    /\ iterate body pre s = (s1, None)
    /\ body x s1 = (s', Some e).
Proof.
  revert s. induction l as [|y l IH]; intros s H; simpl in H; [discriminate H|].
  destruct (body y s) as [s1 [e1|]] eqn:Hy.
  - injection H as <- <-. exists [], y, l, s. now repeat split.
  - destruct (IH _ H) as (pre & x & post & s2 & -> & Hpre & Hx).
    exists (y :: pre), x, post, s2. repeat split; [|assumption].
    simpl. now rewrite Hy.
Qed.

Section ComposerFacts.

Variable ToString : JsValue -> string + string.
Variable JSON_stringify : JsValue -> JsValue + string.
Variable uuid_v4 : nat -> string.
Variable refused : string -> option Parameters -> option JsError.

Local Abbreviation compose :=
  (applyWhereConditionsQB ToString JSON_stringify uuid_v4 refused).
Local Abbreviation step := (field_step ToString JSON_stringify uuid_v4 refused).
Local Abbreviation compile := (parseCondition ToString JSON_stringify).

(** On a plain object the composer is the loop of [field_step] over its
    properties. *)
Lemma compose_object m props alias s :
  compose m (JObj props) alias s = iterate (step m alias) props s.
Proof.
  cbn [applyWhereConditionsQB]. revert s.
  induction props as [|[field condition] props IH]; intros s; [reflexivity|].
  cbn [iterate]. unfold field_step at 1, factory. cbn [fst snd].
  match goal with
  | |- match ?x with _ => _ end = match ?y with _ => _ end =>
      change y with x; destruct x as [s1 [e|]]
  end; [reflexivity | apply IH].
Qed.

(** An index is never a logical key. *)
Lemma index_key_is_not_logical i : is_logical (decimal i) = false.
Proof.
  unfold decimal. now destruct (Nat.to_uint i).
Qed.

Lemma compose_indexed m alias items i s :
  iterate (fun (entry : string * JsValue) (qb : State) =>
             let (field, condition) := entry in
             try_catch field
               (where_condition ToString JSON_stringify uuid_v4 refused m alias field
                  condition qb))
    (indexed i items) s
  = iterate (step m alias) (indexed i items) s.
Proof.
  revert i s. induction items as [|x items IH]; intros i s; [reflexivity|].
  cbn [indexed iterate]. unfold field_step at 1. cbn [fst snd].
  rewrite index_key_is_not_logical.
  destruct (try_catch _ _) as [s1 [e|]]; [reflexivity | apply IH].
Qed.

(** On every value the composer is the loop of [field_step] over the
    properties that [for ... in] visits. *)
Lemma compose_for_in m conditions alias s :
  compose m conditions alias s = iterate (step m alias) (for_in conditions) s.
Proof.
  destruct conditions; try reflexivity.
  - apply compose_indexed.
  - apply compose_indexed.
  - apply compose_object.
Qed.

(** The two ways of the [else] branch: the compiler throws and the builder
    is not called, or the builder is handed the fragment, which it keeps
    whether it refuses it or not. *)
Lemma where_condition_cases m alias field condition s :
  (exists inner,
     compile (uuid_v4 (calls s)) (JStr (fieldAlias_of alias field)) condition (JStr "qb")
     = Throw inner
     /\ where_condition ToString JSON_stringify uuid_v4 refused m alias field condition s
        = ({| wheres := wheres s; calls := Datatypes.S (calls s) |}, Some inner))
  \/ (exists r,
        compile (uuid_v4 (calls s)) (JStr (fieldAlias_of alias field)) condition
          (JStr "qb") = Return (QB r)
        /\ where_condition ToString JSON_stringify uuid_v4 refused m alias field condition s
           = ({| wheres := (wheres s ++ [Condition m (query r) (parameters r)])%list;
                 calls := Datatypes.S (calls s) |},
              refused (query r) (parameters r))).
Proof.
  unfold where_condition.
  destruct (parseCondition _ _ _ _ _ _) as [[r|o]|e] eqn:Hp.
  - right. now exists r.
  - now apply parse_qb_is_pair in Hp.
  - left. now exists e.
Qed.

(** A field that is handled to the end adds one clause to the builder,
    joined with the method of the call. *)
Lemma step_returns_clause m alias entry s s' :
  step m alias entry s = (s', None) ->
  exists clause, wheres s' = (wheres s ++ [clause])%list /\ clause_method clause = m.
Proof.
  unfold field_step, try_catch.
  destruct (is_logical (fst entry)).
  - unfold where_brackets.
    destruct (factory _ _ _ _ _ _ _ _) as [nestedQb [e|]]; intros H;
      [discriminate H|].
    injection H as <-. eexists. split; reflexivity.
  - destruct (where_condition_cases m alias (fst entry) (snd entry) s)
      as [(inner & _ & ->)|(r & _ & ->)]; [discriminate|].
    destruct (refused _ _); intros H; [discriminate H|].
    injection H as <-. eexists. split; reflexivity.
Qed.

(** A field whose handling throws: the error is rewrapped under the field's
    name; either nothing was added, and for a plain field the error is the
    compiler's, or the builder has refused the field's fragment, which it
    keeps. *)
Lemma step_throws m alias entry s s' e :
  step m alias entry s = (s', Some e) ->
  exists inner,
    e = rethrow (fst entry) inner
    /\ ((wheres s' = wheres s
         /\ (is_logical (fst entry) = false ->
             compile (uuid_v4 (calls s)) (JStr (fieldAlias_of alias (fst entry)))
               (snd entry) (JStr "qb") = Throw inner))
        \/ (is_logical (fst entry) = false
            /\ exists r,
                 compile (uuid_v4 (calls s)) (JStr (fieldAlias_of alias (fst entry)))
                   (snd entry) (JStr "qb") = Return (QB r)
                 /\ refused (query r) (parameters r) = Some inner
                 /\ wheres s'
                    = (wheres s ++ [Condition m (query r) (parameters r)])%list)).
Proof.
  unfold field_step, try_catch.
  destruct (is_logical (fst entry)).
  - unfold where_brackets.
    destruct (factory _ _ _ _ _ _ _ _) as [nestedQb [e1|]]; intros H;
      [|discriminate H].
    injection H as <- <-. exists e1. split; [reflexivity|]. left.
    split; [reflexivity | discriminate].
  - destruct (where_condition_cases m alias (fst entry) (snd entry) s)
      as [(inner & Hp & ->)|(r & Hp & ->)].
    + intros H. injection H as <- <-. exists inner. split; [reflexivity|]. left.
      now split.
    + destruct (refused _ _) as [e1|] eqn:Hr; intros H; [|discriminate H].
      injection H as <- <-. exists e1. split; [reflexivity|]. right.
      split; [reflexivity|]. now exists r.
Qed.

Lemma iterate_app {A S E : Type} (body : A -> S -> S * option E) l1 l2 s :
  iterate body (l1 ++ l2)%list s
  = match iterate body l1 s with
    | (s1, None) => iterate body l2 s1
    | thrown => thrown
    end.
Proof.
  revert s. induction l1 as [|x l1 IH]; intros s; [reflexivity|].
  cbn [app iterate]. destruct (body x s) as [s1 [e|]]; [reflexivity | apply IH].
Qed.

Lemma iterate_returns_clauses m alias l s s' :
  iterate (step m alias) l s = (s', None) ->
  exists added,
    wheres s' = (wheres s ++ added)%list
    /\ List.length added = List.length l
    /\ Forall (fun clause => clause_method clause = m) added.
Proof.
  revert s. induction l as [|x l IH]; intros s H; simpl in H.
  - injection H as <-. exists []. rewrite app_nil_r. now repeat split.
  - destruct (step m alias x s) as [s1 [e|]] eqn:Hx; [discriminate H|].
    destruct (step_returns_clause _ _ _ _ Hx) as (clause & Hc & Hm).
    destruct (IH _ H) as (added & Ha & Hl & Hf).
    exists (clause :: added). split; [|split].
    + rewrite Ha, Hc, <- app_assoc. reflexivity.
    + simpl. now rewrite Hl.
    + now constructor.
Qed.

Lemma compose_returns_clauses m conditions alias s s' :
  compose m conditions alias s = (s', None) ->
  exists added,
    wheres s' = (wheres s ++ added)%list
    /\ List.length added = List.length (for_in conditions)
    /\ Forall (fun clause => clause_method clause = m) added.
Proof.
  rewrite compose_for_in. apply iterate_returns_clauses.
Qed.

(** The field at which the handling throws without a clause: the compiler
    throws on its condition or, under a logical key, the callback of the
    group throws. *)
Lemma step_fails m alias field condition s inner :
  (if is_logical field
   then exists nestedQb,
          factory ToString JSON_stringify uuid_v4 refused field condition alias
            {| wheres := []; calls := calls s |} = (nestedQb, Some inner)
   else compile (uuid_v4 (calls s)) (JStr (fieldAlias_of alias field)) condition
          (JStr "qb") = Throw inner) ->
  exists s',
    step m alias (field, condition) s = (s', Some (rethrow field inner))
    /\ wheres s' = wheres s.
Proof.
  unfold field_step. cbn [fst snd]. destruct (is_logical field).
  - intros [nestedQb H]. unfold where_brackets. rewrite H.
    eexists. split; reflexivity.
  - intros H. unfold where_condition. rewrite H. eexists. split; reflexivity.
Qed.

(** C1, amended: a failing call is not undone.  When the fields before a
    field of the tree are handled to the end and compiling that field fails
    (the compiler throws on its condition or, under a logical key, the
    nested trees fail), the call on the whole tree fails with that error
    rewrapped under the field's name; the sink then holds, after the
    clauses it held before, one clause for each field before the failing
    one, as the call on those fields alone leaves it.  The failing field
    and the fields after it add nothing. *)
Theorem failed_compose_keeps_earlier_fields m conditions pre field condition post alias
  s s1 inner :
  for_in conditions = (pre ++ (field, condition) :: post)%list ->
  compose m (JObj pre) alias s = (s1, None) ->
  (if is_logical field
   then exists nestedQb,
          factory ToString JSON_stringify uuid_v4 refused field condition alias
            {| wheres := []; calls := calls s1 |} = (nestedQb, Some inner)
   else compile (uuid_v4 (calls s1)) (JStr (fieldAlias_of alias field)) condition
          (JStr "qb") = Throw inner) ->
  exists s' added,
    compose m conditions alias s = (s', Some (rethrow field inner))
    /\ wheres s' = wheres s1
    /\ wheres s1 = (wheres s ++ added)%list
    /\ List.length added = List.length pre
    /\ Forall (fun clause => clause_method clause = m) added.
Proof.
  intros Hfor Hpre Hfield.
  destruct (compose_returns_clauses _ _ _ _ Hpre) as (added & Ha & Hl & Hm).
  destruct (step_fails m alias field condition s1 inner Hfield) as (s' & Hs & Hw).
  exists s', added. rewrite compose_object in Hpre.
  rewrite compose_for_in, Hfor, iterate_app, Hpre. cbn [iterate]. rewrite Hs.
  now repeat split.
Qed.

(** *** More on the composer *)

Local Abbreviation filters :=
  (applyFiltersQB ToString JSON_stringify uuid_v4 refused).

(** X16: a call that returns has added to the sink, after the clauses it
    held, one clause for each property of the tree, and every one of them
    is joined with the method the call was given. *)
Theorem compose_adds_one_clause_per_field m conditions alias s s' :
  compose m conditions alias s = (s', None) ->
  exists added,
    wheres s' = (wheres s ++ added)%list
    /\ List.length added = List.length (for_in conditions)
    /\ Forall (fun clause => clause_method clause = m) added.
Proof.
  rewrite compose_for_in. generalize (for_in conditions) as fields.
  intros fields. revert s.
  induction fields as [|entry fields IH]; intros s H; simpl in H.
  - injection H as <-. exists []. rewrite app_nil_r. now repeat split.
  - destruct (step m alias entry s) as [s1 [e|]] eqn:He; [discriminate H|].
    destruct (step_returns_clause _ _ _ _ He) as (clause & Hc & Hm).
    destruct (IH _ H) as (added & Ha & Hl & Hf).
    exists (clause :: added). split; [|split].
    + rewrite Ha, Hc, <- app_assoc. reflexivity.
    + simpl. now rewrite Hl.
    + now constructor.
Qed.

(** X17: a tree is composed property by property: composing the
    properties [p1] followed by [p2] is composing [p1] and then, when that
    returns, [p2] from where it ended, and a throw in [p1] ends the call.
    A value without properties (null, a number, a boolean, a date, the
    empty object, array or string) leaves everything as it is. *)
Theorem compose_is_sequential m alias s :
  (forall p1 p2,
     compose m (JObj (p1 ++ p2)) alias s
     = match compose m (JObj p1) alias s with
       | (s1, None) => compose m (JObj p2) alias s1
       | thrown => thrown
       end)
  /\ (forall conditions, for_in conditions = [] ->
        compose m conditions alias s = (s, None)).
Proof.
  split.
  - intros p1 p2. rewrite !compose_object, iterate_app.
    destruct (iterate (step m alias) p1 s) as [s1 [e|]]; [reflexivity|].
    now rewrite compose_object.
  - intros conditions H. now rewrite compose_for_in, H.
Qed.



(** A call that throws has a first property whose handling threw: the
    properties before it were handled as in a call on them alone. *)
Lemma compose_throws m conditions alias s s' e :
  compose m conditions alias s = (s', Some e) ->
  exists pre field condition post s1 inner,
    for_in conditions = (pre ++ (field, condition) :: post)%list
    /\ compose m (JObj pre) alias s = (s1, None)
    /\ step m alias (field, condition) s1 = (s', Some (rethrow field inner))
    /\ e = rethrow field inner.
Proof.
  rewrite compose_for_in. intros H.
  destruct (iterate_thrown _ _ _ H)
    as (pre & [field condition] & post & s1 & Hl & Hpre & Hx).
  destruct (step_throws _ _ _ _ Hx) as (inner & -> & _).
  exists pre, field, condition, post, s1, inner.
  rewrite compose_object. now repeat split.
Qed.

(** X19: an error is rewrapped once per level of the tree.  Every error
    of the composer names a property of the tree it was called on.  When a
    tree nested under a logical key fails, the group is not added, and the
    error names the logical key and, inside, the failing property of the
    nested tree: the first tree of the array whose composition throws,
    after the trees before it were composed, and in it the first property
    whose handling throws, after the properties before it were handled. *)
Theorem errors_are_rewrapped_per_level m alias s :
  (forall conditions s' e,
     compose m conditions alias s = (s', Some e) ->
     exists field inner,
       List.In field (map fst (for_in conditions)) /\ e = rethrow field inner)
  /\ (forall field items s' e,
        is_logical field = true ->
        compose m (JObj [(field, JArr items)]) alias s = (s', Some e) ->
        wheres s' = wheres s
        /\ exists before item after q1,
             items = (before ++ item :: after)%list
             /\ iterate (fun nestedCondition nestedQb =>
                           compose (nested_method field) nestedCondition alias nestedQb)
                  before {| wheres := []; calls := calls s |} = (q1, None)
             /\ exists pre nested condition post q2 q3 inner,
                  for_in item = (pre ++ (nested, condition) :: post)%list
                  /\ compose (nested_method field) (JObj pre) alias q1 = (q2, None)
                  /\ step (nested_method field) alias (nested, condition) q2
                     = (q3, Some (rethrow nested inner))
                  /\ compose (nested_method field) item alias q1
                     = (q3, Some (rethrow nested inner))
                  /\ e = rethrow field (rethrow nested inner)).
Proof.
  split.
  - intros conditions s' e H.
    destruct (compose_throws _ _ _ _ H)
      as (pre & field & condition & post & s1 & inner & Hl & _ & _ & ->).
    exists field, inner. split; [|reflexivity].
    rewrite Hl, map_app. apply in_or_app. right. now left.
  - intros field items s' e Hf. rewrite compose_object. cbn [iterate].
    unfold field_step. cbn [fst snd]. rewrite Hf.
    unfold where_brackets, factory.
    destruct (iterate _ items _) as [nestedQb [e1|]] eqn:Hit;
      cbn [try_catch]; intros H; [|discriminate H].
    injection H as <- <-. split; [reflexivity|].
    destruct (iterate_thrown _ _ _ Hit) as (before & item & after & q1 & Hl & Hb & Hx).
    exists before, item, after, q1. split; [exact Hl|]. split; [exact Hb|].
    destruct (compose_throws _ _ _ _ Hx)
      as (pre & nested & condition & post & q2 & inner & Hfor & Hpre & Hstep & ->).
    exists pre, nested, condition, post, q2, nestedQb, inner. now repeat split.
Qed.

Lemma forEach_returns_clauses m alias items q q' :
  iterate (fun nestedCondition nestedQb => compose m nestedCondition alias nestedQb)
    items q = (q', None) ->
  exists added,
    wheres q' = (wheres q ++ added)%list
    /\ List.length added = list_sum (map (fun x => List.length (for_in x)) items)
    /\ Forall (fun clause => clause_method clause = m) added.
Proof.
  revert q. induction items as [|x items IH]; intros q H; simpl in H.
  - injection H as <-. exists []. rewrite app_nil_r. now repeat split.
  - destruct (compose m x alias q) as [q1 [e|]] eqn:Hx; [discriminate H|].
    destruct (compose_returns_clauses _ _ _ _ Hx) as (a1 & Ha1 & Hl1 & Hf1).
    destruct (IH _ H) as (a2 & Ha2 & Hl2 & Hf2).
    exists (a1 ++ a2)%list. split; [|split].
    + rewrite Ha2, Ha1, <- app_assoc. reflexivity.
    + cbn [map list_sum]. now rewrite length_app, Hl1, Hl2.
    + now apply Forall_app.
Qed.

(** X20: a logical key adds one group.  When the trees under [$and] or
    [$or] compile, the sink gets one bracketed group, joined with the
    method of the call; the group holds one clause per property of the
    nested trees, in order, each joined with [andWhere] under [$and] and
    with [orWhere] under [$or].  An empty array gives an empty group. *)
Theorem logical_key_adds_one_group m field items alias s s' :
  is_logical field = true ->
  compose m (JObj [(field, JArr items)]) alias s = (s', None) ->
  exists inner,
    wheres s' = (wheres s ++ [Brackets m inner])%list
    /\ List.length inner = list_sum (map (fun x => List.length (for_in x)) items)
    /\ Forall (fun clause => clause_method clause = nested_method field) inner.
Proof.
  intros Hf. rewrite compose_object. cbn [iterate].
  unfold field_step. cbn [fst snd]. rewrite Hf.
  unfold where_brackets, factory.
  destruct (iterate _ items _) as [nestedQb [e1|]] eqn:Hit;
    cbn [try_catch]; intros H; [discriminate H|].
  injection H as <-.
  destruct (forEach_returns_clauses _ _ _ _ Hit) as (added & Ha & Hl & Hm).
  cbn [wheres app] in Ha. exists (wheres nestedQb). rewrite Ha. now repeat split.
Qed.

(** *** Flat filters *)

Local Abbreviation apply_one :=
  (applyWhereConditionQB ToString JSON_stringify uuid_v4 refused).

Lemma apply_one_clause qb alias field condition m s' r :
  apply_one qb alias field condition m = (s', r) ->
  (exists sql bound, wheres s' = (wheres qb ++ [Condition m sql bound])%list)
  \/ (r <> None /\ wheres s' = wheres qb).
Proof.
  unfold applyWhereConditionQB, where_call.
  destruct (parseCondition _ _ _ _ _ _) as [[x|o]|e]; intros H; injection H as <- <-.
  - left. do 2 eexists. reflexivity.
  - left. do 2 eexists. reflexivity.
  - right. now split.
Qed.

Lemma filters_clauses alias l s s' r :
  iterate (fun (entry : string * JsValue) (queryBuilder : State) =>
             apply_one queryBuilder alias (fst entry) (snd entry) andWhere) l s
  = (s', r) ->
  exists added,
    wheres s' = (wheres s ++ added)%list
    /\ Forall (fun clause => is_condition clause = true
                             /\ clause_method clause = andWhere) added
    /\ (r = None -> List.length added = List.length l).
Proof.
  revert s. induction l as [|x l IH]; intros s H; simpl in H.
  - injection H as <- <-. exists []. rewrite app_nil_r. now repeat split.
  - destruct (apply_one s alias (fst x) (snd x) andWhere) as [s1 [e|]] eqn:Hx.
    + injection H as <- <-.
      apply apply_one_clause in Hx. destruct Hx as [(sql & bound & Hx)|[_ Hx]].
      * exists [Condition andWhere sql bound]. split; [exact Hx|].
        split; [|discriminate]. constructor; [now split | constructor].
      * exists []. rewrite app_nil_r. split; [exact Hx|]. now split.
    + apply apply_one_clause in Hx. destruct Hx as [(sql & bound & Hs1)|[Hx _]];
        [|now elim Hx].
      destruct (IH _ H) as (added & Ha & Hf & Hl).
      exists (Condition andWhere sql bound :: added). split; [|split].
      * rewrite Ha, Hs1, <- app_assoc. reflexivity.
      * constructor; [now split | assumption].
      * intros Hr. simpl. now rewrite (Hl Hr).
Qed.

(** X21: the flat filter only ever adds plain conditions joined with
    [andWhere], after the clauses the builder held; it never adds a group,
    also under the keys [$and] and [$or], which it reads as field names.
    When it returns, it has added one condition per property, and a null
    or undefined filter is a type error that leaves the builder as it
    is. *)
Theorem filters_add_plain_conditions alias filter s s' r :
  filters s alias filter = (s', r) ->
  (exists added,
     wheres s' = (wheres s ++ added)%list
     /\ Forall (fun clause => is_condition clause = true
                              /\ clause_method clause = andWhere) added
     /\ (r = None -> List.length added = List.length (for_in filter)))
  /\ (is_nullish filter = true ->
      s' = s /\ r = Some (TypeError "Cannot convert undefined or null to object")).
Proof.
  unfold applyFiltersQB. destruct (is_nullish filter).
  - intros H. injection H as <- <-. split; [|now split].
    exists []. rewrite app_nil_r. now repeat split.
  - intros H. split; [now apply filters_clauses in H | discriminate].
Qed.

Lemma logical_has_no_dot field : is_logical field = true -> includes "." field = false.
Proof.
  unfold is_logical. intros H. apply orb_true_iff in H.
  destruct H as [H|H]; apply String.eqb_eq in H; now subst.
Qed.

(** For a plain field name the loop body of the composer is the call of
    the flat filter inside the [try]. *)
Lemma step_is_apply_one alias entry s :
  includes "." (fst entry) = false -> is_logical (fst entry) = false ->
  step andWhere alias entry s
  = try_catch (fst entry) (apply_one s alias (fst entry) (snd entry) andWhere).
Proof.
  intros Hdot Hlog. unfold field_step. rewrite Hlog.
  unfold where_condition, applyWhereConditionQB, fieldAlias_of. now rewrite Hdot.
Qed.

(** X22: on a filter whose keys are plain field names (no dot, not [$and]
    nor [$or]) the flat filter and the composer called with [andWhere] do
    the same: they leave the same builder and have generated the same
    number of ids, and one fails exactly when the other does, the composer
    with the error of the flat filter rewrapped under the field's name. *)
Theorem filters_agree_with_composer alias props s :
  Forall (fun entry : string * JsValue =>
            includes "." (fst entry) = false /\ is_logical (fst entry) = false) props ->
  fst (filters s alias (JObj props)) = fst (compose andWhere (JObj props) alias s)
  /\ match snd (filters s alias (JObj props)),
           snd (compose andWhere (JObj props) alias s) with
     | None, None => True
     | Some e1, Some e2 =>
         exists field, List.In field (map fst props) /\ e2 = rethrow field e1
     | _, _ => False
     end.
Proof.
  unfold applyFiltersQB. cbn [is_nullish for_in]. rewrite compose_object.
  revert s. induction props as [|[field condition] props IH]; intros s Hall.
  - now split.
  - apply Forall_cons_iff in Hall. destruct Hall as [[Hdot Hlog] Hrest].
    cbn [iterate]. rewrite (step_is_apply_one alias (field, condition) s Hdot Hlog).
    cbn [fst snd].
    destruct (apply_one s alias field condition andWhere) as [s1 [e|]];
      cbn [try_catch].
    + split; [reflexivity|]. exists field. split; [now left | reflexivity].
    + destruct (IH s1 Hrest) as [H1 H2]. split; [exact H1|].
      destruct (snd (iterate _ props _)), (snd (iterate _ props _)); try easy.
      destruct H2 as (f & Hf & ->). exists f. split; [now right | reflexivity].
Qed.

(** *** Names across the fields of a tree *)

Lemma replace_dashes_length s : String.length (replace_dashes s) = String.length s.
Proof.
  induction s as [|c s IH]; simpl; [reflexivity | now rewrite IH].
Qed.

Lemma step_flat m alias entry s s' :
  is_logical (fst entry) = false ->
  step m alias entry s = (s', None) ->
  exists clause,
    wheres s' = (wheres s ++ [clause])%list
    /\ calls s' = Datatypes.S (calls s)
    /\ NoDup (clause_names clause)
    /\ forall n, List.In n (clause_names clause) ->
         exists rest, n = replace_dashes (uuid_v4 (calls s)) ++ "_" ++ rest.
Proof.
  intros Hl. unfold field_step. rewrite Hl.
  destruct (where_condition_cases m alias (fst entry) (snd entry) s)
    as [(inner & _ & ->)|(r & Hp & ->)]; cbn [try_catch]; [discriminate|].
  destruct (refused _ _); intros H; [discriminate H|].
  injection H as <-. eexists. split; [reflexivity|]. split; [reflexivity|].
  apply parse_qb_inv in Hp. destruct Hp as (x & _ & _ & _ & Hp).
  apply fragment_names in Hp. destruct Hp as (Hnd & Hpre & _).
  unfold names_of in Hnd, Hpre. cbn [clause_names]. now split.
Qed.

Lemma flat_names m alias props s s' :
  Forall (fun entry : string * JsValue => is_logical (fst entry) = false) props ->
  iterate (step m alias) props s = (s', None) ->
  exists added,
    wheres s' = (wheres s ++ added)%list
    /\ Forall (fun n => exists k rest,
                 calls s <= k < calls s + List.length props
                 /\ n = replace_dashes (uuid_v4 k) ++ "_" ++ rest)
         (List.concat (map clause_names added))
    /\ ((forall i j, calls s <= i -> i < j -> j < calls s + List.length props ->
           String.length (uuid_v4 i) = String.length (uuid_v4 j)
           /\ replace_dashes (uuid_v4 i) <> replace_dashes (uuid_v4 j)) ->
        NoDup (List.concat (map clause_names added))).
Proof.
  revert s. induction props as [|x props IH]; intros s Hall H; simpl in H.
  - injection H as <-. exists []. rewrite app_nil_r.
    split; [reflexivity|]. split; constructor.
  - apply Forall_cons_iff in Hall. destruct Hall as [Hx Hall].
    destruct (step m alias x s) as [s1 [e|]] eqn:Hs; [discriminate H|].
    destruct (step_flat _ _ _ _ Hx Hs) as (clause & Hw & Hc & Hnd & Hpre).
    destruct (IH _ Hall H) as (added & Ha & Hk & Hno).
    exists (clause :: added). cbn [map List.concat List.length].
    split; [rewrite Ha, Hw, <- app_assoc; reflexivity|]. split.
    + apply Forall_app. split.
      * apply Forall_forall. intros n Hn. destruct (Hpre n Hn) as [rest ->].
        exists (calls s), rest. split; [lia | reflexivity].
      * eapply Forall_impl; [|exact Hk]. cbv beta.
        intros n (k & rest & Hb & ->). exists k, rest. split; [lia | reflexivity].
    + intros Hd. apply NoDup_app; [exact Hnd| |].
      * apply Hno. intros i j Hi Hij Hj. apply Hd; lia.
      * intros n Hn Hin. destruct (Hpre n Hn) as [rest ->].
        rewrite Forall_forall in Hk. destruct (Hk _ Hin) as (k & rest' & Hb & Heq).
        destruct (Hd (calls s) k) as [Hlen Hne]; try lia.
        revert Heq. apply append_differs; [|exact Hne].
        now rewrite !replace_dashes_length.
Qed.

(** X25: names do not collide across the fields of a flat tree.  When a
    tree without logical keys compiles, and the ids that the generator
    gives during the call have one length and differ once their dashes are
    replaced, no parameter name is bound twice among the clauses that the
    call adds. *)
Theorem flat_tree_binds_each_name_once m alias props s s' :
  Forall (fun entry : string * JsValue => is_logical (fst entry) = false) props ->
  (forall i j, calls s <= i -> i < j -> j < calls s + List.length props ->
     String.length (uuid_v4 i) = String.length (uuid_v4 j)
     /\ replace_dashes (uuid_v4 i) <> replace_dashes (uuid_v4 j)) ->
  compose m (JObj props) alias s = (s', None) ->
  exists added,
    wheres s' = (wheres s ++ added)%list
    /\ NoDup (List.concat (map clause_names added)).
Proof.
  intros Hall Hd. rewrite compose_object. intros H.
  destruct (flat_names _ _ _ Hall H) as (added & Ha & _ & Hno).
  exists added. split; [exact Ha | now apply Hno].
Qed.

End ComposerFacts.

(** *** Sort order *)

Lemma split_without c s : includes c s = false -> split c s = [s].
Proof.
  induction s as [|d s IH]; simpl; [reflexivity|].
  intros H. apply orb_false_iff in H. destruct H as [Hd Hs].
  now rewrite Hd, (IH Hs).
Qed.

Lemma split_once c r f :
  includes c r = false -> includes c f = false ->
  split c (r ++ String c f) = [r; f].
Proof.
  intros Hr Hf. induction r as [|d r IH]; simpl.
  - now rewrite Ascii.eqb_refl, (split_without _ _ Hf).
  - simpl in Hr. apply orb_false_iff in Hr. destruct Hr as [Hd Hr].
    now rewrite Hd, (IH Hr).
Qed.

Lemma includes_append c r f : includes c (r ++ String c f) = true.
Proof.
  induction r as [|d r IH]; simpl.
  - now rewrite Ascii.eqb_refl.
  - rewrite IH. apply orb_true_r.
Qed.

Lemma applySortOrderQB_entries queryBuilder sort :
  applySortOrderQB queryBuilder sort
  = {| qb_alias := qb_alias queryBuilder;
       orderBys := (orderBys queryBuilder
                    ++ map (fun entry : string * JsValue =>
                              (fieldAlias_of (qb_alias queryBuilder) (fst entry),
                               order_of (snd entry))) sort)%list |}.
Proof.
  unfold applySortOrderQB. revert queryBuilder.
  induction sort as [|entry sort IH]; intros [al obs]; simpl.
  - now rewrite app_nil_r.
  - rewrite IH. simpl. now rewrite <- app_assoc.
Qed.

(** C8: each entry of the sort record is applied, in order, with the
    order ascending exactly when its value is ['ascend'], ['asc'],
    ['ascending'] or [1], and descending for every other value; a key
    [relation.field] is ordered under the alias [relation.field], which is
    not the key under the base alias. *)
Theorem sort_order_applied :
  (forall queryBuilder sort,
     orderBys (applySortOrderQB queryBuilder sort)
     = (orderBys queryBuilder
        ++ map (fun entry : string * JsValue =>
                  (sort_alias queryBuilder (fst entry), order_of (snd entry))) sort)%list)
  /\ (forall value,
        order_of value = ASC
        <-> value = JStr "ascend" \/ value = JStr "asc"
            \/ value = JStr "ascending" \/ value = JNum (NInt 1))
  /\ (forall value,
        ~ (value = JStr "ascend" \/ value = JStr "asc"
           \/ value = JStr "ascending" \/ value = JNum (NInt 1)) ->
        order_of value = DESC)
  /\ (forall queryBuilder relation field,
        includes "." relation = false -> includes "." field = false ->
        sort_alias queryBuilder (relation ++ "." ++ field) = relation ++ "." ++ field
        /\ relation ++ "." ++ field
           <> qb_alias queryBuilder ++ "." ++ relation ++ "." ++ field).
Proof.
  assert (Hasc : forall value,
             order_of value = ASC
             <-> value = JStr "ascend" \/ value = JStr "asc"
                 \/ value = JStr "ascending" \/ value = JNum (NInt 1)).
  { intros value. unfold order_of. split.
    - destruct value as [| | |[z| | |]|s| | | | | |]; cbn [is_the_string orb]; try discriminate.
      + destruct (Z.eqb_spec z 1) as [->|]; [intros _; now repeat right | discriminate].
      + destruct (String.eqb_spec s "ascend") as [->|]; [intros _; now left|].
        destruct (String.eqb_spec s "asc") as [->|]; [intros _; right; now left|].
        destruct (String.eqb_spec s "ascending") as [->|];
          [intros _; right; right; now left | discriminate].
    - intros [->|[->|[->| ->]]]; reflexivity. }
  split; [|split; [exact Hasc|split]].
  - intros queryBuilder sort. now rewrite applySortOrderQB_entries.
  - intros value Hn. destruct (order_of value) eqn:Ho; [|reflexivity].
    apply Hasc in Ho. contradiction.
  - intros queryBuilder relation field Hr Hf. split.
    + unfold sort_alias, fieldAlias_of. cbn [append].
      now rewrite includes_append, (split_once _ _ _ Hr Hf).
    + intros H. apply (f_equal String.length) in H.
      rewrite !length_append in H. simpl in H. lia.
Qed.

(** *** Dotted field names *)

Lemma split_cons c r x :
  includes c r = false -> split c (r ++ String c x) = r :: split c x.
Proof.
  intros Hr. induction r as [|d r IH]; simpl.
  - now rewrite Ascii.eqb_refl.
  - simpl in Hr. apply orb_false_iff in Hr. destruct Hr as [Hd Hr].
    now rewrite Hd, (IH Hr).
Qed.

Lemma fieldAlias_of_dotted alias relation field :
  includes "." relation = false -> includes "." field = false ->
  fieldAlias_of alias (relation ++ "." ++ field) = relation ++ "." ++ field.
Proof.
  intros Hr Hf. unfold fieldAlias_of. cbn [append].
  now rewrite includes_append, (split_once _ _ _ Hr Hf).
Qed.

(** X23: how a field name becomes an alias, in the composer and in the
    sort order alike.  A name without a dot is put under the base alias.
    A name [relation.field] is taken as it is and the base alias is not
    used.  Of a name with more dots only the first two segments are kept:
    what follows the second dot is dropped. *)
Theorem field_alias_resolution alias :
  (forall field, includes "." field = false ->
     fieldAlias_of alias field = alias ++ "." ++ field)
  /\ (forall relation field,
        includes "." relation = false -> includes "." field = false ->
        fieldAlias_of alias (relation ++ "." ++ field) = relation ++ "." ++ field)
  /\ (forall relation field more,
        includes "." relation = false -> includes "." field = false ->
        fieldAlias_of alias (relation ++ "." ++ field ++ "." ++ more)
        = relation ++ "." ++ field).
Proof.
  split; [|split].
  - intros field H. unfold fieldAlias_of. now rewrite H.
  - intros relation field. apply fieldAlias_of_dotted.
  - intros relation field more Hr Hf. unfold fieldAlias_of. cbn [append].
    rewrite includes_append, (split_cons _ _ _ Hr), (split_cons _ _ _ Hf).
    reflexivity.
Qed.

Section DottedFields.

Variable ToString : JsValue -> string + string.
Variable JSON_stringify : JsValue -> JsValue + string.
Variable uuid_v4 : nat -> string.
Variable refused : string -> option Parameters -> option JsError.

(** X24: a dotted field name is read differently by the two entry points.
    For [relation.field] the composer compiles the condition under the
    alias [relation.field], the flat filter under the base alias followed
    by the whole name: the clause that each adds begins with that alias. *)
Theorem dotted_field_in_composer_and_filter relation field condition m alias s :
  includes "." relation = false -> includes "." field = false ->
  (forall s',
     applyWhereConditionsQB ToString JSON_stringify uuid_v4 refused m
       (JObj [(relation ++ "." ++ field, condition)]) alias s = (s', None) ->
     exists rest bound,
       wheres s'
       = (wheres s ++ [Condition m (relation ++ "." ++ field ++ " " ++ rest) bound])%list)
  /\ (forall s',
        applyFiltersQB ToString JSON_stringify uuid_v4 refused s alias
          (JObj [(relation ++ "." ++ field, condition)]) = (s', None) ->
        exists rest bound,
          wheres s'
          = (wheres s
             ++ [Condition andWhere
                   (alias ++ "." ++ relation ++ "." ++ field ++ " " ++ rest) bound])%list).
Proof.
  intros Hr Hf. split; intros s'.
  - rewrite compose_object. cbn [iterate]. unfold field_step. cbn [fst snd].
    destruct (is_logical (relation ++ "." ++ field)) eqn:Hl.
    { apply logical_has_no_dot in Hl. cbn [append] in Hl.
      rewrite includes_append in Hl. discriminate Hl. }
    unfold where_condition, where_call.
    rewrite (fieldAlias_of_dotted alias _ _ Hr Hf).
    destruct (parseCondition _ _ _ _ _ _) as [[r|o]|e] eqn:Hp;
      try destruct (refused _ _); cbn [try_catch];
      intros H; try discriminate H.
    + injection H as <-.
      apply parse_qb_inv in Hp. destruct Hp as (x & Hx & _ & _ & Hp).
      injection Hx as <-.
      apply fragment_names in Hp. destruct Hp as (_ & _ & rest & Hq).
      exists rest, (parameters r). cbn [wheres]. rewrite Hq.
      repeat (rewrite ?append_assoc; cbn [append]). reflexivity.
    + now apply parse_qb_is_pair in Hp.
  - unfold applyFiltersQB. cbn [is_nullish for_in iterate fst snd].
    unfold applyWhereConditionQB, where_call.
    destruct (parseCondition _ _ _ _ _ _) as [[r|o]|e] eqn:Hp;
      try destruct (refused _ _);
      intros H; try discriminate H.
    + injection H as <-.
      apply parse_qb_inv in Hp. destruct Hp as (x & Hx & _ & _ & Hp).
      injection Hx as <-.
      apply fragment_names in Hp. destruct Hp as (_ & _ & rest & Hq).
      exists rest, (parameters r). cbn [wheres]. rewrite Hq.
      repeat (rewrite ?append_assoc; cbn [append]). reflexivity.
    + now apply parse_qb_is_pair in Hp.
Qed.

End DottedFields.

(** ** Worked examples *)

Local Abbreviation run_parse := (parseCondition example_ToString example_stringify example_uuid).

Local Abbreviation run_compose :=
  (applyWhereConditionsQB example_ToString example_stringify counting_uuid
     example_refused).

(** The first state of a run: an empty builder, no id generated yet. *)
Local Abbreviation fresh := {| wheres := []; calls := 0 |}.

(** C2 at [{$notEqualTo: 5}] on the field [f]. *)
Lemma notEqualTo_fragment_witness :
  run_parse (JStr "f") (JObj [("$notEqualTo", JNum (NInt 5))]) (JStr "qb")
    = Return (QB {| query := "f != :1b9d6bcd_bbfd_4b2d_9b5d_ab8dfbbd4bed_notEqualTo_f";
                    parameters :=
                      Some [("1b9d6bcd_bbfd_4b2d_9b5d_ab8dfbbd4bed_notEqualTo_f",
                             JNum (NInt 5))] |})
  /\ "f != :1b9d6bcd_bbfd_4b2d_9b5d_ab8dfbbd4bed_notEqualTo_f"
     <> "f <> :1b9d6bcd_bbfd_4b2d_9b5d_ab8dfbbd4bed_notEqualTo_f"
  /\ operatorMap_get operatorMap "$notEqualTo" = Some "<>".
Proof.
  exact (notEqualTo_fragment example_ToString example_stringify example_uuid
           "f" (JNum (NInt 5)) eq_refl eq_refl).
Defined.

(** C3 fails at the bare string ['John']: it and [{$equalTo: 'John'}], on
    the field [f] and under one id, bind their value under different
    names. *)
Lemma bare_scalar_is_not_equalTo :
  run_parse (JStr "f") (JStr "John") (JStr "qb")
    = Return (QB {| query := "f = :1b9d6bcd_bbfd_4b2d_9b5d_ab8dfbbd4bed_eq_f";
                    parameters :=
                      Some [("1b9d6bcd_bbfd_4b2d_9b5d_ab8dfbbd4bed_eq_f", JStr "John")] |})
  /\ run_parse (JStr "f") (JObj [("$equalTo", JStr "John")]) (JStr "qb")
    = Return (QB {| query := "f = :1b9d6bcd_bbfd_4b2d_9b5d_ab8dfbbd4bed_equalTo_f";
                    parameters :=
                      Some [("1b9d6bcd_bbfd_4b2d_9b5d_ab8dfbbd4bed_equalTo_f",
                             JStr "John")] |})
  /\ run_parse (JStr "f") (JStr "John") (JStr "qb")
     <> run_parse (JStr "f") (JObj [("$equalTo", JStr "John")]) (JStr "qb").
Proof.
  repeat split. vm_compute. discriminate.
Qed.

(** C3, amended, at the bare boolean [true]. *)
Lemma bare_scalar_and_equalTo_witness :
  alias_is_blank (JStr "f") = false
  /\ is_bare_scalar (JBool true) = true
  /\ run_parse (JStr "f") (JBool true) (JStr "qb")
     = Return (QB {| query := "f = :1b9d6bcd_bbfd_4b2d_9b5d_ab8dfbbd4bed_eq_f";
                     parameters :=
                       Some [("1b9d6bcd_bbfd_4b2d_9b5d_ab8dfbbd4bed_eq_f", JBool true)] |})
  /\ run_parse (JStr "f") (JObj [("$equalTo", JBool true)]) (JStr "qb")
     = Return (QB {| query := "f = :1b9d6bcd_bbfd_4b2d_9b5d_ab8dfbbd4bed_equalTo_f";
                     parameters :=
                       Some [("1b9d6bcd_bbfd_4b2d_9b5d_ab8dfbbd4bed_equalTo_f",
                              JBool true)] |})
  /\ run_parse JNull (JBool true) (JStr "find") = Return (Find (Equal (JBool true)))
  /\ run_parse JNull (JObj [("$equalTo", JBool true)]) (JStr "find")
     = Return (Find (Equal (JBool true))).
Proof.
  pose proof (bare_scalar_and_equalTo example_ToString example_stringify example_uuid
                "f" (JBool true) eq_refl eq_refl) as (H1 & H2 & _ & H3).
  destruct (H3 JNull) as [H4 H5].
  repeat split; assumption.
Defined.

(** A bare [Date] does not reach the equality branch: it is of type object
    and has no key. *)
Lemma bare_date_is_rejected :
  run_parse (JStr "f") (JDate 0) (JStr "qb")
    = Throw (Error "CONDITION_OBJECT_MUST_HAVE_EXACTLY_ONE_KEY")
  /\ run_parse (JStr "f") (JObj [("$equalTo", JDate 0)]) (JStr "qb")
    = Return (QB {| query := "f = :1b9d6bcd_bbfd_4b2d_9b5d_ab8dfbbd4bed_equalTo_f";
                    parameters :=
                      Some [("1b9d6bcd_bbfd_4b2d_9b5d_ab8dfbbd4bed_equalTo_f", JDate 0)] |}).
Proof.
  split; reflexivity.
Qed.

(** C4 fails at [{$jsonHasKey: 5}]: an operand that is no string compiles
    in both modes. *)
Lemma jsonHasKey_accepts_a_number :
  run_parse (JStr "f") (JObj [("$jsonHasKey", JNum (NInt 5))]) (JStr "qb")
    = Return (QB {| query := "f ? :1b9d6bcd_bbfd_4b2d_9b5d_ab8dfbbd4bed_jsonHasKey_f_key";
                    parameters :=
                      Some [("1b9d6bcd_bbfd_4b2d_9b5d_ab8dfbbd4bed_jsonHasKey_f_key",
                             JNum (NInt 5))] |})
  /\ run_parse (JStr "f") (JObj [("$jsonHasKey", JNum (NInt 5))]) (JStr "find")
    = Return (Find (Raw " ? :1b9d6bcd_bbfd_4b2d_9b5d_ab8dfbbd4bed_jsonHasKey_f_key"
                      [("1b9d6bcd_bbfd_4b2d_9b5d_ab8dfbbd4bed_jsonHasKey_f_key",
                        JNum (NInt 5))])).
Proof.
  split; reflexivity.
Qed.

(** C4, amended, at the operands [false] and [null]. *)
Lemma jsonHasKey_takes_any_operand_witness :
  alias_is_blank (JStr "f") = false
  /\ is_nullish (JBool false) = false
  /\ run_parse (JStr "f") (JObj [("$jsonHasKey", JBool false)]) (JStr "qb")
     = Return (QB {| query := "f ? :1b9d6bcd_bbfd_4b2d_9b5d_ab8dfbbd4bed_jsonHasKey_f_key";
                     parameters :=
                       Some [("1b9d6bcd_bbfd_4b2d_9b5d_ab8dfbbd4bed_jsonHasKey_f_key",
                              JBool false)] |})
  /\ is_nullish JNull = true
  /\ run_parse (JStr "f") (JObj [("$jsonHasKey", JNull)]) (JStr "find")
     = Throw (Error "CONDITION_VALUE_CANNOT_BE_UNDEFINED_OR_NULL").
Proof.
  split; [reflexivity|]. split; [reflexivity|]. split.
  - exact (proj1 (proj1 (jsonHasKey_takes_any_operand example_ToString example_stringify
                           example_uuid "f" (JBool false) eq_refl) eq_refl)).
  - split; [reflexivity|].
    exact (proj2 (jsonHasKey_takes_any_operand example_ToString example_stringify
                    example_uuid "f" JNull eq_refl) eq_refl (JStr "find") find eq_refl).
Defined.


(** In operator mode an alias that has no text is found out only where the
    alias is written: under [$regex] with a string operand, not under
    [$gt]. *)
Lemma alias_without_text_in_operator_mode :
  run_parse (JObj [("toString", JNum (NInt 1))]) (JObj [("$regex", JStr "x")])
    (JStr "find")
  = Throw (TypeError "Cannot convert object to primitive value")
  /\ run_parse (JObj [("toString", JNum (NInt 1))]) (JObj [("$gt", JNum (NInt 1))])
       (JStr "find")
     = Return (Find (MoreThan (JNum (NInt 1)))).
Proof.
  split; reflexivity.
Qed.

(** C6 fails at [{$nope: null}] and at [{}] under an empty alias.
    A single key that is no operator token, with a null operand, fails
    with the missing-operand error and not with the unknown-operator
    error; the empty object, under a blank alias in fragment mode, fails
    with the alias error and not with the key-count error. *)
Lemma unknown_operator_with_null_operand :
  run_parse (JStr "f") (JObj [("$nope", JNull)]) (JStr "qb")
    = Throw (Error "CONDITION_VALUE_CANNOT_BE_UNDEFINED_OR_NULL")
  /\ run_parse (JStr "f") (JObj [("$nope", JNull)]) (JStr "qb")
     <> Throw (Error "INVALID_CONDITION_OPERATOR $nope")
  /\ case_of "$nope" = None
  /\ run_parse (JStr "") (JObj []) (JStr "qb")
    = Throw (Error "ALIAS_MUST_BE_A_NON_EMPTY_STRING")
  /\ run_parse (JStr "") (JObj []) (JStr "qb")
     <> Throw (Error "CONDITION_OBJECT_MUST_HAVE_EXACTLY_ONE_KEY").
Proof.
  repeat split; vm_compute; discriminate.
Qed.

(** C6, amended, on the field [f] in fragment mode. *)
Lemma shape_errors_witness :
  target_of (JStr "qb") = Some qb
  /\ alias_is_blank (JStr "f") = false
  /\ run_parse (JStr "f") (JObj []) (JStr "qb")
     = Throw (Error "CONDITION_OBJECT_MUST_HAVE_EXACTLY_ONE_KEY")
  /\ run_parse (JStr "f") (JObj [("$gt", JNum (NInt 1)); ("$lt", JNum (NInt 9))]) (JStr "qb")
     = Throw (Error "CONDITION_OBJECT_MUST_HAVE_EXACTLY_ONE_KEY")
  /\ run_parse (JStr "f") JNull (JStr "qb")
     = Throw (Error "CONDITION_CANNOT_BE_UNDEFINED_OR_NULL")
  /\ run_parse (JStr "f") JUndefined (JStr "qb")
     = Throw (Error "CONDITION_CANNOT_BE_UNDEFINED_OR_NULL")
  /\ run_parse (JStr "f") (JObj [("$nope", JStr "x")]) (JStr "qb")
     = Throw (Error "INVALID_CONDITION_OPERATOR $nope").
Proof.
  pose proof (shape_errors example_ToString example_stringify example_uuid
                (JStr "f") (JStr "qb") eq_refl (fun _ => eq_refl))
    as (Hk & Hn & Hu & Ho).
  split; [reflexivity|]. split; [reflexivity|].
  split; [apply Hk; discriminate|].
  split; [apply Hk; discriminate|].
  split; [exact Hn|]. split; [exact Hu|].
  apply Ho; reflexivity.
Defined.

(** C7 at [{$between: [1, 10]}]: it compiles, so it has a shape that
    every id instantiates. *)
Lemma fragment_is_deterministic_up_to_id_witness :
  run_parse (JStr "f") (JObj [("$between", JArr [JNum (NInt 1); JNum (NInt 10)])]) (JStr "qb")
    = Return (QB {| query := "f BETWEEN :1b9d6bcd_bbfd_4b2d_9b5d_ab8dfbbd4bed_between_f_start"
                             ++ " AND :1b9d6bcd_bbfd_4b2d_9b5d_ab8dfbbd4bed_between_f_end";
                    parameters :=
                      Some [("1b9d6bcd_bbfd_4b2d_9b5d_ab8dfbbd4bed_between_f_start",
                             JNum (NInt 1));
                            ("1b9d6bcd_bbfd_4b2d_9b5d_ab8dfbbd4bed_between_f_end",
                             JNum (NInt 10))] |})
  /\ exists sh : Shape, forall uuid,
       parseCondition example_ToString example_stringify uuid (JStr "f")
         (JObj [("$between", JArr [JNum (NInt 1); JNum (NInt 10)])]) (JStr "qb")
       = Return (QB (instantiate (replace_dashes uuid) sh)).
Proof.
  split; [reflexivity|].
  exact (fragment_is_deterministic_up_to_id example_ToString example_stringify
           (JStr "f") (JObj [("$between", JArr [JNum (NInt 1); JNum (NInt 10)])])
           example_uuid eq_refl).
Defined.

(** C1 fails at [{name: 'John', age: null}]: the second field fails, the
    clause of the first is in the sink. *)
Lemma failed_call_leaves_a_clause :
  snd (run_compose andWhere (JObj [("name", JStr "John"); ("age", JNull)]) "entity" fresh)
    = Some (rethrow "age" (Error "CONDITION_CANNOT_BE_UNDEFINED_OR_NULL"))
  /\ wheres (fst (run_compose andWhere (JObj [("name", JStr "John"); ("age", JNull)])
                    "entity" fresh))
    = [Condition andWhere "entity.name = :9b2d_0_eq_entity.name"
         (Some [("9b2d_0_eq_entity.name", JStr "John")])]
  /\ wheres (fst (run_compose andWhere (JObj [("name", JStr "John"); ("age", JNull)])
                    "entity" fresh))
     <> wheres fresh.
Proof.
  repeat split. vm_compute. discriminate.
Qed.

(** The clause of a field is in the sink also when the builder refuses
    it: at [{'first name': 'x', age: 1}] the call fails at the first
    field, whose parameter name has a space, and the sink holds its
    clause. *)
Lemma refused_clause_is_kept :
  run_compose andWhere (JObj [("first name", JStr "x"); ("age", JNum (NInt 1))])
    "entity" fresh
  = ({| wheres := [Condition andWhere "entity.first name = :9b2d_0_eq_entity.first name"
                     (Some [("9b2d_0_eq_entity.first name", JStr "x")])];
        calls := 1 |},
     Some (rethrow "first name"
             (TypeORMError
                "QueryBuilder parameter keys may only contain numbers, letters, underscores, or periods."))).
Proof.
  reflexivity.
Qed.

(** C1, amended, at [{name: 'John', age: null, city: 'Paris'}]. *)
Lemma failed_compose_keeps_earlier_fields_witness :
  for_in (JObj [("name", JStr "John"); ("age", JNull); ("city", JStr "Paris")])
  = ([("name", JStr "John")] ++ ("age", JNull) :: [("city", JStr "Paris")])%list
  /\ run_compose andWhere (JObj [("name", JStr "John")]) "entity" fresh
  = ({| wheres := [Condition andWhere "entity.name = :9b2d_0_eq_entity.name"
                     (Some [("9b2d_0_eq_entity.name", JStr "John")])];
        calls := 1 |}, None)
  /\ parseCondition example_ToString example_stringify (counting_uuid 1)
       (JStr "entity.age") JNull (JStr "qb")
     = Throw (Error "CONDITION_CANNOT_BE_UNDEFINED_OR_NULL")
  /\ exists s' added,
       run_compose andWhere
         (JObj [("name", JStr "John"); ("age", JNull); ("city", JStr "Paris")])
         "entity" fresh
       = (s', Some (rethrow "age" (Error "CONDITION_CANNOT_BE_UNDEFINED_OR_NULL")))
       /\ wheres s' = [Condition andWhere "entity.name = :9b2d_0_eq_entity.name"
                         (Some [("9b2d_0_eq_entity.name", JStr "John")])]
       /\ [Condition andWhere "entity.name = :9b2d_0_eq_entity.name"
             (Some [("9b2d_0_eq_entity.name", JStr "John")])] = ([] ++ added)%list
       /\ List.length added = 1%nat
       /\ Forall (fun clause => clause_method clause = andWhere) added.
Proof.
  split; [reflexivity|]. split; [reflexivity|]. split; [reflexivity|].
  exact (@failed_compose_keeps_earlier_fields example_ToString example_stringify
           counting_uuid example_refused andWhere
           (JObj [("name", JStr "John"); ("age", JNull); ("city", JStr "Paris")])
           [("name", JStr "John")] "age" JNull
           [("city", JStr "Paris")] "entity" fresh
           {| wheres := [Condition andWhere "entity.name = :9b2d_0_eq_entity.name"
                           (Some [("9b2d_0_eq_entity.name", JStr "John")])];
              calls := 1 |}
           (Error "CONDITION_CANNOT_BE_UNDEFINED_OR_NULL") eq_refl eq_refl eq_refl).
Defined.

(** C8 on a sort record with a plain key, a dotted key and a value
    outside the vocabulary. *)
Lemma sort_order_applied_witness :
  orderBys (applySortOrderQB {| qb_alias := "user"; orderBys := [] |}
              [("name", JStr "asc"); ("profile.age", JNum (NInt 1));
               ("email", JStr "upwards")])
    = [("user.name", ASC); ("profile.age", ASC); ("user.email", DESC)]
  /\ includes "." "profile" = false
  /\ includes "." "age" = false
  /\ sort_alias {| qb_alias := "user"; orderBys := [] |} "profile.age" = "profile.age"
  /\ order_of (JStr "upwards") = DESC.
Proof.
  split.
  { exact (proj1 sort_order_applied {| qb_alias := "user"; orderBys := [] |}
             [("name", JStr "asc"); ("profile.age", JNum (NInt 1));
              ("email", JStr "upwards")]). }
  split; [reflexivity|]. split; [reflexivity|]. split.
  { exact (proj1 (proj2 (proj2 (proj2 sort_order_applied))
                    {| qb_alias := "user"; orderBys := [] |} "profile" "age"
                    eq_refl eq_refl)). }
  apply (proj1 (proj2 (proj2 sort_order_applied))).
  intros [H|[H|[H|H]]]; discriminate H.
Defined.

(** C10 on the field [f]. *)
Lemma empty_array_is_membership_witness :
  alias_is_blank (JStr "f") = false
  /\ run_parse (JStr "f") (JArr []) (JStr "qb")
     = Return (QB {| query := "f IN (:...1b9d6bcd_bbfd_4b2d_9b5d_ab8dfbbd4bed_in_f)";
                     parameters :=
                       Some [("1b9d6bcd_bbfd_4b2d_9b5d_ab8dfbbd4bed_in_f", JArr [])] |})
  /\ run_parse JUndefined (JArr []) (JStr "find") = Return (Find (In (JArr []))).
Proof.
  split; [reflexivity|].
  destruct (empty_array_is_membership example_ToString example_stringify example_uuid
              "f" eq_refl) as [H1 H2].
  split; [exact H1 | exact (H2 JUndefined)].
Defined.

(** ** Worked examples of the further properties *)

Local Abbreviation between_1_10 :=
  (JObj [("$between", JArr [JNum (NInt 1); JNum (NInt 10)])]).

Local Abbreviation between_1_10_fragment :=
  {| query := "f BETWEEN :1b9d6bcd_bbfd_4b2d_9b5d_ab8dfbbd4bed_between_f_start"
              ++ " AND :1b9d6bcd_bbfd_4b2d_9b5d_ab8dfbbd4bed_between_f_end";
     parameters :=
       Some [("1b9d6bcd_bbfd_4b2d_9b5d_ab8dfbbd4bed_between_f_start", JNum (NInt 1));
             ("1b9d6bcd_bbfd_4b2d_9b5d_ab8dfbbd4bed_between_f_end", JNum (NInt 10))] |}.

(** X1 at [{$between: [1, 10]}]. *)
Lemma parameters_are_placeholders_witness :
  run_parse (JStr "f") between_1_10 (JStr "qb") = Return (QB between_1_10_fragment)
  /\ exists s,
       JStr "f" = JStr s
       /\ NoDup (names_of between_1_10_fragment)
       /\ (forall n, List.In n (names_of between_1_10_fragment) ->
             exists rest, n = "1b9d6bcd_bbfd_4b2d_9b5d_ab8dfbbd4bed" ++ "_" ++ rest)
       /\ ((exists o stem,
              (stem = remove_first_dollar (token_of o) \/ o = op_equalTo /\ stem = "eq")
              /\ query between_1_10_fragment
                 = s ++ " " ++ sql_text o ++ " "
                   ++ placeholder o ("1b9d6bcd_bbfd_4b2d_9b5d_ab8dfbbd4bed" ++ "_" ++ stem
                                     ++ "_" ++ s)
              /\ names_of between_1_10_fragment
                 = bound_names o ("1b9d6bcd_bbfd_4b2d_9b5d_ab8dfbbd4bed" ++ "_" ++ stem
                                  ++ "_" ++ s))
           \/ (parameters between_1_10_fragment = None
               /\ (query between_1_10_fragment = s ++ " IS NULL"
                   \/ query between_1_10_fragment = s ++ " IS NOT NULL"))).
Proof.
  split; [reflexivity|].
  exact (parameters_are_placeholders example_ToString example_stringify example_uuid
           (JStr "f") between_1_10 eq_refl).
Defined.

(** X2 at the bare value [30] on the field [age], under two ids. *)
Lemma runs_share_no_name_witness :
  String.length example_uuid = String.length another_uuid
  /\ replace_dashes example_uuid <> replace_dashes another_uuid
  /\ "1b9d6bcd_bbfd_4b2d_9b5d_ab8dfbbd4bed_eq_age"
     <> "7c1e0f52_3a6b_4d1c_8e2f_5b9a0c4d7e31_eq_age".
Proof.
  split; [reflexivity|]. split; [vm_compute; discriminate|].
  refine (runs_share_no_name example_ToString example_stringify
            example_uuid another_uuid (JStr "age") (JStr "age")
            (JNum (NInt 30)) (JNum (NInt 30)) eq_refl eq_refl eq_refl _
            (n1 := "1b9d6bcd_bbfd_4b2d_9b5d_ab8dfbbd4bed_eq_age")
            (n2 := "7c1e0f52_3a6b_4d1c_8e2f_5b9a0c4d7e31_eq_age") _ _).
  - vm_compute. discriminate.
  - left. reflexivity.
  - left. reflexivity.
Defined.

(** X3 at [{$iContains: 'jo'}]. *)
Lemma switch_follows_operatorMap_witness :
  operatorMap_get operatorMap "$iContains" = Some "ILIKE"
  /\ exists s rest,
       JStr "f" = JStr s
       /\ "f ILIKE :1b9d6bcd_bbfd_4b2d_9b5d_ab8dfbbd4bed_iContains_f"
          = s ++ " " ++ "ILIKE" ++ " " ++ rest.
Proof.
  split; [reflexivity|].
  exact (proj2 (switch_follows_operatorMap example_ToString example_stringify)
           example_uuid (JStr "f") "$iContains" (JStr "jo")
           {| query := "f ILIKE :1b9d6bcd_bbfd_4b2d_9b5d_ab8dfbbd4bed_iContains_f";
              parameters :=
                Some [("1b9d6bcd_bbfd_4b2d_9b5d_ab8dfbbd4bed_iContains_f",
                       JStr "%jo%")] |}
           "ILIKE" eq_refl eq_refl ltac:(discriminate)).
Defined.


(** X5 at the arrays [[1, 'a']] and [[true]]. *)
Lemma bare_array_is_in_witness :
  forallb is_string_number_or_date [JNum (NInt 1); JStr "a"] = true
  /\ run_parse (JStr "f") (JArr [JNum (NInt 1); JStr "a"]) (JStr "qb")
     = run_parse (JStr "f") (JObj [("$in", JArr [JNum (NInt 1); JStr "a"])]) (JStr "qb")
  /\ forallb is_string_number_or_date [JBool true] = false
  /\ run_parse (JStr "f") (JArr [JBool true]) (JStr "qb")
     = Throw (Error "INVALID_CONDITION").
Proof.
  split; [reflexivity|]. split.
  { exact (proj1 (bare_array_is_in example_ToString example_stringify example_uuid
                    (JStr "f") [JNum (NInt 1); JStr "a"] (JStr "qb")) eq_refl). }
  split; [reflexivity|].
  exact (proj1 (proj2 (bare_array_is_in example_ToString example_stringify example_uuid
                         (JStr "f") [JBool true] (JStr "qb"))
                  eq_refl qb eq_refl (fun _ => eq_refl))).
Defined.

(** X9 at [{$gte: 18}]. *)
Lemma ordered_comparisons_witness :
  List.In ("$gte", MoreThanOrEqual, "$GTE_OPERATOR_MUST_HAVE_A_NUMBER_STRING_OR_DATE")
    comparisons
  /\ alias_is_blank (JStr "age") = false
  /\ is_nullish (JNum (NInt 18)) = false
  /\ exists sql,
       operatorMap_get operatorMap "$gte" = Some sql
       /\ run_parse (JStr "age") (JObj [("$gte", JNum (NInt 18))]) (JStr "qb")
          = Return (QB {| query := "age" ++ " " ++ sql
                                   ++ " :1b9d6bcd_bbfd_4b2d_9b5d_ab8dfbbd4bed_gte_age";
                          parameters :=
                            Some [("1b9d6bcd_bbfd_4b2d_9b5d_ab8dfbbd4bed_gte_age",
                                   JNum (NInt 18))] |}).
Proof.
  split; [left; reflexivity|]. split; [reflexivity|]. split; [reflexivity|].
  destruct (@ordered_comparisons example_ToString example_stringify
              "$gte" MoreThanOrEqual "$GTE_OPERATOR_MUST_HAVE_A_NUMBER_STRING_OR_DATE"
              (or_introl eq_refl) example_uuid "age" (JNum (NInt 18)) eq_refl eq_refl)
    as (sql & Hs & Hok & _).
  exists sql. split; [exact Hs|]. exact (proj1 (Hok eq_refl)).
Defined.

(** X10 at [{$startsWith: 'Jo'}]. *)
Lemma pattern_operators_witness :
  List.In ("$startsWith", "", "%", Like, "$STARTS_WITH_OPERATOR_MUST_HAVE_A_STRING_VALUE")
    patterns
  /\ alias_is_blank (JStr "name") = false
  /\ run_parse JNull (JObj [("$startsWith", JStr "Jo")]) (JStr "find")
     = Return (Find (Like "Jo%")).
Proof.
  split; [do 4 right; left; reflexivity|]. split; [reflexivity|].
  destruct (@pattern_operators example_ToString example_stringify
              "$startsWith" "" "%" Like "$STARTS_WITH_OPERATOR_MUST_HAVE_A_STRING_VALUE"
              (or_intror (or_intror (or_intror (or_intror (or_introl eq_refl)))))
              example_uuid "name" (JStr "Jo") eq_refl eq_refl)
    as (sql & _ & Hok & _).
  exact (proj2 (Hok "Jo" eq_refl) JNull).
Defined.

(** X11 at [{$between: [1, 10]}] and at the operand [[1]]. *)
Lemma range_operators_witness :
  alias_is_blank (JStr "f") = false
  /\ run_parse (JStr "f") between_1_10 (JStr "qb") = Return (QB between_1_10_fragment)
  /\ run_parse (JStr "f") (JObj [("$notBetween", JArr [JNum (NInt 1); JNum (NInt 10)])])
       (JStr "find")
     = Return (Find (Not (Between (JNum (NInt 1)) (JNum (NInt 10)))))
  /\ is_pair_of_scalars (JArr [JNum (NInt 1)]) = false
  /\ run_parse (JStr "f") (JObj [("$between", JArr [JNum (NInt 1)])]) (JStr "qb")
     = Throw (Error "$BETWEEN_OPERATOR_MUST_HAVE_AN_ARRAY_WITH_TWO_VALUES").
Proof.
  split; [reflexivity|].
  destruct (range_operators example_ToString example_stringify example_uuid "f"
              (JArr [JNum (NInt 1); JNum (NInt 10)]) eq_refl eq_refl)
    as (_ & Hok & _).
  destruct (Hok (JNum (NInt 1)) (JNum (NInt 10)) eq_refl eq_refl eq_refl)
    as (H1 & _ & H3).
  split; [exact H1|]. split; [exact (proj2 (H3 (JStr "f")))|].
  split; [reflexivity|].
  exact (proj1 (proj2 (proj2 (range_operators example_ToString example_stringify
                                example_uuid "f" (JArr [JNum (NInt 1)])
                                eq_refl eq_refl))
                  eq_refl (JStr "f") (JStr "qb") qb eq_refl (fun _ => eq_refl))).
Defined.

(** X12 at [{$jsonContains: [1, 2]}] and at [{$jsonContains: 10n}]. *)
Lemma json_text_operators_witness :
  List.In ("$jsonContains", "@>") json_texts
  /\ alias_is_blank (JStr "tags") = false
  /\ stringify_numbers (JArr [JNum (NInt 1); JNum (NInt 2)]) = inl (JStr "[1,2]")
  /\ parseCondition example_ToString stringify_numbers example_uuid (JStr "tags")
       (JObj [("$jsonContains", JArr [JNum (NInt 1); JNum (NInt 2)])]) (JStr "qb")
     = Return (QB {| query := "tags @> :1b9d6bcd_bbfd_4b2d_9b5d_ab8dfbbd4bed_jsonContains_tags";
                     parameters :=
                       Some [("1b9d6bcd_bbfd_4b2d_9b5d_ab8dfbbd4bed_jsonContains_tags",
                              JStr "[1,2]")] |})
  /\ example_stringify (JBigInt 10) = inr "Do not know how to serialize a BigInt"
  /\ run_parse (JStr "tags") (JObj [("$jsonContains", JBigInt 10)]) (JStr "find")
     = Throw (TypeError "Do not know how to serialize a BigInt").
Proof.
  split; [left; reflexivity|]. split; [reflexivity|]. split; [reflexivity|].
  split.
  { exact (proj1 (proj1 (proj2 (@json_text_operators example_ToString stringify_numbers
                                  "$jsonContains" "@>" (or_introl eq_refl) example_uuid
                                  "tags" (JArr [JNum (NInt 1); JNum (NInt 2)])
                                  eq_refl eq_refl))
                    (JStr "[1,2]") eq_refl)). }
  split; [reflexivity|].
  exact (proj2 (proj2 (proj2 (@json_text_operators example_ToString example_stringify
                                "$jsonContains" "@>" (or_introl eq_refl) example_uuid
                                "tags" (JBigInt 10) eq_refl eq_refl))
                  "Do not know how to serialize a BigInt" eq_refl)).
Defined.

(** X13 at [$in] and [$notIn] of [[1, 2]]. *)
Lemma negated_operators_witness :
  List.In ("$in", "$notIn") negations
  /\ run_parse JNull (JObj [("$in", JArr [JNum (NInt 1); JNum (NInt 2)])]) (JStr "find")
     = Return (Find (In (JArr [JNum (NInt 1); JNum (NInt 2)])))
  /\ run_parse JNull (JObj [("$notIn", JArr [JNum (NInt 1); JNum (NInt 2)])]) (JStr "find")
     = Return (Find (Not (In (JArr [JNum (NInt 1); JNum (NInt 2)])))).
Proof.
  split; [left; reflexivity|]. split; [reflexivity|].
  exact (proj1 (@negated_operators example_ToString example_stringify "$in" "$notIn"
                  (or_introl eq_refl) example_uuid JNull
                  (JArr [JNum (NInt 1); JNum (NInt 2)])
                  (In (JArr [JNum (NInt 1); JNum (NInt 2)]))) eq_refl).
Defined.

(** X14 on the field [deletedAt]. *)
Lemma null_checks_witness :
  alias_is_blank (JStr "deletedAt") = false
  /\ run_parse (JStr "deletedAt") (JStr "$isNull") (JStr "qb")
     = Return (QB {| query := "deletedAt IS NULL"; parameters := None |})
  /\ run_parse (JStr "deletedAt") (JStr "$isNotNull") (JStr "qb")
     = Return (QB {| query := "deletedAt IS NOT NULL"; parameters := None |}).
Proof.
  split; [reflexivity|].
  destruct (null_checks example_ToString example_stringify example_uuid "deletedAt"
              eq_refl) as (H1 & H2 & _).
  split; [exact H1 | exact H2].
Defined.


Local Abbreviation run_filters :=
  (applyFiltersQB example_ToString example_stringify counting_uuid example_refused).

Local Abbreviation two_ages :=
  (JArr [JObj [("age", JNum (NInt 30))]; JObj [("age", JNum (NInt 40))]]).

Local Abbreviation john_or_ages := (JObj [("name", JStr "John"); ("$or", two_ages)]).

(** X16 at [{name: 'John', $or: [{age: 30}, {age: 40}]}]. *)
Lemma compose_adds_one_clause_per_field_witness :
  snd (run_compose andWhere john_or_ages "entity" fresh) = None
  /\ exists added,
       wheres (fst (run_compose andWhere john_or_ages "entity" fresh))
       = ([] ++ added)%list
       /\ List.length added = 2%nat
       /\ Forall (fun clause => clause_method clause = andWhere) added.
Proof.
  split; [reflexivity|].
  exact (compose_adds_one_clause_per_field example_ToString example_stringify
           counting_uuid example_refused andWhere john_or_ages "entity" fresh
           (s' := fst (run_compose andWhere john_or_ages "entity" fresh)) eq_refl).
Defined.

(** X17 at the properties [name] and [age], one after the other. *)
Lemma compose_is_sequential_witness :
  run_compose andWhere (JObj [("name", JStr "John"); ("age", JNum (NInt 30))])
    "entity" fresh
  = run_compose andWhere (JObj [("age", JNum (NInt 30))]) "entity"
      (fst (run_compose andWhere (JObj [("name", JStr "John")]) "entity" fresh))
  /\ run_compose orWhere JNull "entity" fresh = (fresh, None).
Proof.
  split.
  - exact (proj1 (compose_is_sequential example_ToString example_stringify
                    counting_uuid example_refused andWhere "entity" fresh)
             [("name", JStr "John")] [("age", JNum (NInt 30))]).
  - exact (proj2 (compose_is_sequential example_ToString example_stringify
                    counting_uuid example_refused orWhere "entity" fresh) JNull eq_refl).
Defined.


(** X19 at [{$or: [{name: 'John'}, {city: 'Paris', age: null}]}]. *)
Lemma errors_are_rewrapped_per_level_witness :
  is_logical "$or" = true
  /\ run_compose andWhere
       (JObj [("$or", JArr [JObj [("name", JStr "John")];
                            JObj [("city", JStr "Paris"); ("age", JNull)]])])
       "entity" fresh
     = ({| wheres := []; calls := 3 |},
        Some (rethrow "$or"
                (rethrow "age" (Error "CONDITION_CANNOT_BE_UNDEFINED_OR_NULL"))))
  /\ wheres {| wheres := []; calls := 3 |} = wheres fresh
  /\ exists before item after q1,
       [JObj [("name", JStr "John")]; JObj [("city", JStr "Paris"); ("age", JNull)]]
       = (before ++ item :: after)%list
       /\ iterate (fun nestedCondition nestedQb =>
                     run_compose (nested_method "$or") nestedCondition "entity" nestedQb)
            before {| wheres := []; calls := calls fresh |} = (q1, None)
       /\ exists pre nested condition post q2 q3 inner,
            for_in item = (pre ++ (nested, condition) :: post)%list
            /\ run_compose (nested_method "$or") (JObj pre) "entity" q1 = (q2, None)
            /\ field_step example_ToString example_stringify counting_uuid example_refused
                 (nested_method "$or") "entity" (nested, condition) q2
               = (q3, Some (rethrow nested inner))
            /\ run_compose (nested_method "$or") item "entity" q1
               = (q3, Some (rethrow nested inner))
            /\ rethrow "$or"
                 (rethrow "age" (Error "CONDITION_CANNOT_BE_UNDEFINED_OR_NULL"))
               = rethrow "$or" (rethrow nested inner).
Proof.
  split; [reflexivity|]. split; [reflexivity|].
  exact (proj2 (errors_are_rewrapped_per_level example_ToString example_stringify
                  counting_uuid example_refused andWhere "entity" fresh)
           "$or" [JObj [("name", JStr "John")];
                  JObj [("city", JStr "Paris"); ("age", JNull)]]
           {| wheres := []; calls := 3 |}
           (rethrow "$or"
              (rethrow "age" (Error "CONDITION_CANNOT_BE_UNDEFINED_OR_NULL")))
           eq_refl eq_refl).
Defined.

(** X20 at [{$or: [{age: 30}, {age: 40}]}]. *)
Lemma logical_key_adds_one_group_witness :
  is_logical "$or" = true
  /\ snd (run_compose andWhere (JObj [("$or", two_ages)]) "entity" fresh) = None
  /\ exists inner,
       wheres (fst (run_compose andWhere (JObj [("$or", two_ages)]) "entity" fresh))
       = ([] ++ [Brackets andWhere inner])%list
       /\ List.length inner = 2%nat
       /\ Forall (fun clause => clause_method clause = orWhere) inner.
Proof.
  split; [reflexivity|]. split; [reflexivity|].
  exact (logical_key_adds_one_group example_ToString example_stringify counting_uuid example_refused
           andWhere "$or" [JObj [("age", JNum (NInt 30))]; JObj [("age", JNum (NInt 40))]]
           "entity" fresh
           (s' := fst (run_compose andWhere (JObj [("$or", two_ages)]) "entity" fresh))
           eq_refl eq_refl).
Defined.

(** X21 at [{name: 'John', $or: [{age: 30}, {age: 40}]}]: the flat filter
    reads [$or] as a field and fails on its array of objects. *)
Lemma filters_add_plain_conditions_witness :
  run_filters fresh "entity" john_or_ages
  = ({| wheres := [Condition andWhere "entity.name = :9b2d_0_eq_entity.name"
                     (Some [("9b2d_0_eq_entity.name", JStr "John")])];
        calls := 2 |},
     Some (Error "INVALID_CONDITION"))
  /\ exists added,
       [Condition andWhere "entity.name = :9b2d_0_eq_entity.name"
          (Some [("9b2d_0_eq_entity.name", JStr "John")])]
       = ([] ++ added)%list
       /\ Forall (fun clause => is_condition clause = true
                                /\ clause_method clause = andWhere) added.
Proof.
  split; [reflexivity|].
  destruct (proj1 (filters_add_plain_conditions example_ToString example_stringify
                     counting_uuid example_refused "entity" john_or_ages fresh eq_refl))
    as (added & Ha & Hf & _).
  now exists added.
Defined.

(** The flat filter under the key [$or] with an array of numbers: the
    parameter name has a dollar sign, the builder refuses it and keeps the
    clause. *)
Lemma filter_clause_refused_under_or :
  run_filters fresh "entity" (JObj [("$or", JArr [JNum (NInt 1); JNum (NInt 2)])])
  = ({| wheres := [Condition andWhere "entity.$or IN (:...9b2d_0_in_entity.$or)"
                     (Some [("9b2d_0_in_entity.$or",
                             JArr [JNum (NInt 1); JNum (NInt 2)])])];
        calls := 1 |},
     Some (TypeORMError
             "QueryBuilder parameter keys may only contain numbers, letters, underscores, or periods.")).
Proof.
  reflexivity.
Qed.

(** X22 at [{name: 'John', age: {$gte: 18}}]. *)
Lemma filters_agree_with_composer_witness :
  Forall (fun entry : string * JsValue =>
            includes "." (fst entry) = false /\ is_logical (fst entry) = false)
    [("name", JStr "John"); ("age", JObj [("$gte", JNum (NInt 18))])]
  /\ fst (run_filters fresh "entity"
            (JObj [("name", JStr "John"); ("age", JObj [("$gte", JNum (NInt 18))])]))
     = fst (run_compose andWhere
              (JObj [("name", JStr "John"); ("age", JObj [("$gte", JNum (NInt 18))])])
              "entity" fresh).
Proof.
  assert (H : Forall (fun entry : string * JsValue =>
                        includes "." (fst entry) = false
                        /\ is_logical (fst entry) = false)
                [("name", JStr "John"); ("age", JObj [("$gte", JNum (NInt 18))])]).
  { repeat constructor. }
  split; [exact H|].
  exact (proj1 (filters_agree_with_composer example_ToString example_stringify
                  counting_uuid example_refused "entity" fresh H)).
Defined.

(** X23 on names with no dot, one dot and three. *)
Lemma field_alias_resolution_witness :
  fieldAlias_of "entity" "age" = "entity.age"
  /\ fieldAlias_of "entity" "profile.age" = "profile.age"
  /\ fieldAlias_of "entity" "profile.address.city.name" = "profile.address".
Proof.
  split.
  { exact (proj1 (field_alias_resolution "entity") "age" eq_refl). }
  split.
  { exact (proj1 (proj2 (field_alias_resolution "entity")) "profile" "age"
             eq_refl eq_refl). }
  exact (proj2 (proj2 (field_alias_resolution "entity")) "profile" "address" "city.name"
           eq_refl eq_refl).
Defined.

(** X24 at [{'profile.age': 30}]. *)
Lemma dotted_field_in_composer_and_filter_witness :
  includes "." "profile" = false
  /\ includes "." "age" = false
  /\ (exists rest bound,
        wheres (fst (run_compose andWhere (JObj [("profile.age", JNum (NInt 30))])
                       "entity" fresh))
        = ([] ++ [Condition andWhere ("profile" ++ "." ++ "age" ++ " " ++ rest) bound])%list)
  /\ (exists rest bound,
        wheres (fst (run_filters fresh "entity" (JObj [("profile.age", JNum (NInt 30))])))
        = ([] ++ [Condition andWhere
                    ("entity" ++ "." ++ "profile" ++ "." ++ "age" ++ " " ++ rest)
                    bound])%list).
Proof.
  split; [reflexivity|]. split; [reflexivity|].
  pose proof (dotted_field_in_composer_and_filter example_ToString example_stringify
                counting_uuid example_refused "profile" "age" (JNum (NInt 30)) andWhere "entity" fresh
                eq_refl eq_refl) as [Hc Hf].
  split.
  - exact (Hc (fst (run_compose andWhere (JObj [("profile.age", JNum (NInt 30))])
                      "entity" fresh)) eq_refl).
  - exact (Hf (fst (run_filters fresh "entity" (JObj [("profile.age", JNum (NInt 30))])))
             eq_refl).
Defined.

(** X25 at [{age: {$gte: 18}, name: 'John'}], under the ids of [digit_uuid]. *)
Lemma flat_tree_binds_each_name_once_witness :
  Forall (fun entry : string * JsValue => is_logical (fst entry) = false)
    [("age", JObj [("$between", JArr [JNum (NInt 18); JNum (NInt 65)])]);
     ("name", JStr "John")]
  /\ exists added,
       wheres (fst (applyWhereConditionsQB example_ToString example_stringify digit_uuid example_refused
                      andWhere
                      (JObj [("age", JObj [("$between",
                                            JArr [JNum (NInt 18); JNum (NInt 65)])]);
                             ("name", JStr "John")])
                      "entity" fresh))
       = ([] ++ added)%list
       /\ NoDup (List.concat (map clause_names added)).
Proof.
  assert (H : Forall (fun entry : string * JsValue => is_logical (fst entry) = false)
                [("age", JObj [("$between", JArr [JNum (NInt 18); JNum (NInt 65)])]);
                 ("name", JStr "John")]).
  { repeat constructor. }
  split; [exact H|].
  refine (flat_tree_binds_each_name_once example_ToString example_stringify digit_uuid example_refused
            andWhere "entity" fresh
            (s' := fst (applyWhereConditionsQB example_ToString example_stringify
                          digit_uuid example_refused andWhere
                          (JObj [("age", JObj [("$between",
                                                JArr [JNum (NInt 18); JNum (NInt 65)])]);
                                 ("name", JStr "John")])
                          "entity" fresh))
            H _ eq_refl).
  intros i j Hi Hij Hj. cbn in Hi, Hj.
  destruct i as [|i]; [|lia]. destruct j as [|[|j]]; try lia.
  split; [reflexivity | vm_compute; discriminate].
Defined.
